(** * icd_code_flags_snflk: the code-list compiler

    A shallow embedding of [icd_code_flags_snflk] (src/file1.py): the
    pandas pipeline that turns the code-list sheet into regex rules and
    range rules, and the two loops that issue one INSERT per rule.

    Modelling choices, all read off the source:
    - a DataFrame is the list of its rows, in row order; the index labels
      are not modelled (no line of the function reads them);
    - a text cell is a [string], i.e. a sequence of 8-bit characters, and
      upper-casing is ASCII upper-casing;
    - the sheet row carries the cell of the column named by
      [map_descr_var] in its field [map_descr];
    - a missing value ([None] / [NaN]) is [None] of an [option];
    - [cur.execute] appends the statement to the cursor's log; a
      statement is kept as its kind and the values formatted into it;
    - Python exceptions are a [Raise] result. *)

From Stdlib Require Import String Ascii List Bool Arith NArith Lia.
From Stdlib Require Import Sorted Permutation.
Import ListNotations.
Local Open Scope list_scope.
Local Open Scope string_scope.

(** ** Python string operations *)

Module Py.

(** [c.upper()] on one 8-bit character. *)
Definition upper_ascii (c : ascii) : ascii :=
  let n := nat_of_ascii c in
  if Nat.leb 97 n && Nat.leb n 122 then ascii_of_nat (n - 32) else c.

(** [s.upper()] *)
Fixpoint upper (s : string) : string :=
  match s with
  | EmptyString => EmptyString
  | String c s' => String (upper_ascii c) (upper s')
  end.

(** [pat in s] *)
Fixpoint contains (pat s : string) : bool :=
  String.prefix pat s ||
  match s with
  | EmptyString => false
  | String _ s' => contains pat s'
  end.

(** [s.replace(old, new)] for a one-character [old]. *)
Fixpoint replace (old : ascii) (new : string) (s : string) : string :=
  match s with
  | EmptyString => EmptyString
  | String c s' =>
      if Ascii.eqb c old then new ++ replace old new s'
      else String c (replace old new s')
  end.

(** [s.split(sep)] for a one-character [sep]. *)
Fixpoint split (sep : ascii) (s : string) : list string :=
  match s with
  | EmptyString => [EmptyString]
  | String c s' =>
      if Ascii.eqb c sep then EmptyString :: split sep s'
      else match split sep s' with
           | [] => [String c EmptyString]
           | part :: parts => String c part :: parts
           end
  end.

(** [fill * n] *)
Fixpoint repeat_char (fill : ascii) (n : nat) : string :=
  match n with
  | O => EmptyString
  | S n' => String fill (repeat_char fill n')
  end.

(** [s.ljust(width, fill)] *)
Definition ljust (width : nat) (fill : ascii) (s : string) : string :=
  s ++ repeat_char fill (width - String.length s).

(** [sep.join(parts)] *)
Definition join (sep : string) (parts : list string) : string :=
  String.concat sep parts.

End Py.

(** ** Results of code that may raise *)

Inductive Exn : Type :=
| IndexError
| TypeError
| AttributeError.

Inductive Result (A : Type) : Type :=
| Ok (a : A)
| Raise (e : Exn).
Arguments Ok {A} a.
Arguments Raise {A} e.

Definition bindR {A B : Type} (r : Result A) (f : A -> Result B) : Result B :=
  match r with
  | Ok a => f a
  | Raise e => Raise e
  end.

Fixpoint mapR {A B : Type} (f : A -> Result B) (l : list A) : Result (list B) :=
  match l with
  | [] => Ok []
  | a :: l' => bindR (f a) (fun b => bindR (mapR f l') (fun bs => Ok (b :: bs)))
  end.

(** [l[i]] *)
Definition getitem {A : Type} (l : list A) (i : nat) : Result A :=
  match nth_error l i with
  | Some a => Ok a
  | None => Raise IndexError
  end.

(** ** The frames *)

(** A row of the sheet read by [pd.read_excel]. *)
Record MapRow : Type := mkMapRow {
  map_code_type : string;
  map_code : string;
  map_descr : string
}.

(** A row of [df_comor_codes] up to line 112: [code_array] is the list
    made by [str.split]. *)
Record CodeRow : Type := mkCodeRow {
  cr_code_type : string;
  cr_descr : string;
  cr_code : string;
  cr_code_orig : string;
  cr_code_array : list string
}.

(** A row of [df_comor_codes] as returned: one per exploded entry. *)
Record Entry : Type := mkEntry {
  code_type : string;
  descr : string;
  code : string;
  code_orig : string;
  code_array : string;
  code_range : option string;
  code_regex : option string
}.

(** A row of [df_regex_codes]. *)
Record RegexRow : Type := mkRegexRow {
  rx_code_type : string;
  rx_descr : string;
  rx_code_regex : string
}.

(** ** Prep codelist (lines 82-134) *)

(** Line 88: keep the rows whose [code_type] contains 'ICD', case=False. *)
Definition is_icd (r : MapRow) : bool :=
  Py.contains (Py.upper "ICD") (Py.upper (map_code_type r)).

Definition select_icd (df : list MapRow) : list MapRow :=
  filter is_icd df.

(** Lines 94-95: the nested [np.where] on one cell. *)
Definition icd_type (ct : string) : string :=
  if Py.contains "9" ct then "9"
  else if Py.contains "10" ct then "10"
  else ct.

Definition match_icd_type (df : list MapRow) : list MapRow :=
  map (fun r => mkMapRow (icd_type (map_code_type r)) (map_code r) (map_descr r)) df.

(** Lines 102-112: [code_orig], blanks removed, [code_array]. *)
Definition clean_up (r : MapRow) : CodeRow :=
  let code_orig := map_code r in
  let code := Py.replace " " "" code_orig in
  mkCodeRow (map_code_type r) (map_descr r) code code_orig (Py.split "," code).

(** Line 113: [explode('code_array')]. *)
Definition explode_row (r : CodeRow) : list Entry :=
  map (fun a => mkEntry (cr_code_type r) (cr_descr r) (cr_code r) (cr_code_orig r) a None None)
      (cr_code_array r).

Definition explode (df : list CodeRow) : list Entry :=
  flat_map explode_row df.

(** Line 118. *)
Definition set_code_range (e : Entry) : Entry :=
  mkEntry (code_type e) (descr e) (code e) (code_orig e) (code_array e)
          (if Py.contains "-" (code_array e) then Some (code_array e) else None)
          (code_regex e).

(** Lines 130-131. *)
Definition set_code_regex (e : Entry) : Entry :=
  mkEntry (code_type e) (descr e) (code e) (code_orig e) (code_array e)
          (code_range e)
          (if negb (Py.contains "-" (code_array e))
           then Some (Py.replace "x" "." (code_array e)) else None).

(** Line 134: [+ ".*"], a missing value stays missing. *)
Definition add_suffix (e : Entry) : Entry :=
  mkEntry (code_type e) (descr e) (code e) (code_orig e) (code_array e)
          (code_range e)
          (option_map (fun r => r ++ ".*") (code_regex e)).

(** [df_comor_codes] as it stands after line 134 (and as returned). *)
Definition df_comor_codes (sheet : list MapRow) : list Entry :=
  map add_suffix
    (map set_code_regex
      (map set_code_range
        (explode (map clean_up (match_icd_type (select_icd sheet)))))).

(** ** Grouping (lines 137-138) *)

(** [s.notna()] on one cell. *)
Definition notna {A : Type} (cell : option A) : bool :=
  match cell with
  | Some _ => true
  | None => false
  end.

(** The group key [['code_type', map_descr_var]]. *)
Definition key : Type := (string * string)%type.

Definition key_of (e : Entry) : key := (code_type e, descr e).

(** Python's comparison of two tuples of strings. *)
Definition key_compare (k1 k2 : key) : comparison :=
  match String.compare (fst k1) (fst k2) with
  | Eq => String.compare (snd k1) (snd k2)
  | c => c
  end.

Definition key_eqb (k1 k2 : key) : bool :=
  String.eqb (fst k1) (fst k2) && String.eqb (snd k1) (snd k2).

Definition key_lt (k1 k2 : key) : Prop := key_compare k1 k2 = Lt.

(** [groupby] has [sort=True]: the group keys are the distinct keys of the
    frame in ascending order. *)
Fixpoint insert_key (k : key) (ks : list key) : list key :=
  match ks with
  | [] => [k]
  | k' :: ks' =>
      match key_compare k k' with
      | Lt => k :: ks
      | Eq => ks
      | Gt => k' :: insert_key k ks'
      end
  end.

Definition group_keys (df : list Entry) : list key :=
  fold_right insert_key [] (map key_of df).

(** A group is its key and the rows of the frame that carry it, in the
    order of the frame. *)
Definition groupby (df : list Entry) : list (key * list Entry) :=
  map (fun k => (k, filter (fun e => key_eqb (key_of e) k) df)) (group_keys df).

(** ['|'.join] over a column: [str.join] raises on a cell that is not a
    string. *)
Definition str_item (cell : option string) : Result string :=
  match cell with
  | Some s => Ok s
  | None => Raise TypeError
  end.

Definition join_column (sep : string) (cells : list (option string)) : Result string :=
  bindR (mapR str_item cells) (fun parts => Ok (Py.join sep parts)).

(** [['code_regex'].apply('|'.join).reset_index()] on one group. *)
Definition apply_join (g : key * list Entry) : Result RegexRow :=
  bindR (join_column "|" (map code_regex (snd g)))
        (fun joined => Ok (mkRegexRow (fst (fst g)) (snd (fst g)) joined)).

Definition df_regex_codes (df : list Entry) : Result (list RegexRow) :=
  mapR apply_join (groupby (filter (fun e => notna (code_regex e)) df)).

(** ** The cursor (lines 143-199) *)

(** The statements handed to [cur.execute], with the values formatted into
    each. The two INSERT statements are the regex rule and the range rule. *)
Inductive Stmt : Type :=
| CreateTableLike (outdata indata : string)
| AlterTableAddMapColumns (outdata : string)
| InsertRegexp (outdata code code_type descr indata
                indata_code_var indata_code_type_var xwhere : string)
| InsertBetween (outdata code code_type descr indata indata_code_var
                 range_low range_high indata_code_type_var xwhere : string).

Definition Cursor : Type := list Stmt.

(** A computation on the cursor that may raise; the statements executed
    before an exception stay executed. *)
Definition M (A : Type) : Type := Cursor -> Result A * Cursor.

Definition ret {A : Type} (a : A) : M A := fun cur => (Ok a, cur).

Definition bind {A B : Type} (m : M A) (f : A -> M B) : M B :=
  fun cur =>
    match m cur with
    | (Ok a, cur') => f a cur'
    | (Raise e, cur') => (Raise e, cur')
    end.

Definition lift {A : Type} (r : Result A) : M A := fun cur => (r, cur).

Definition execute (stmt : Stmt) : M unit := fun cur => (Ok tt, cur ++ [stmt])%list.

Notation "x <- m ;; k" := (bind m (fun x => k))
  (at level 61, m at next level, right associativity).
Notation "m ;;; k" := (bind m (fun _ => k))
  (at level 61, right associativity).

(** [for x in l: body] *)
Fixpoint for_each {A : Type} (l : list A) (body : A -> M unit) : M unit :=
  match l with
  | [] => ret tt
  | a :: l' => body a ;;; for_each l' body
  end.

(** [enumerate(l)] *)
Definition enumerate {A : Type} (l : list A) : list (nat * A) :=
  combine (seq 0 (List.length l)) l.

(** [code.split(sep)]: a missing value has no [split]. *)
Definition cell_split (sep : ascii) (cell : option string) : Result (list string) :=
  match cell with
  | Some s => Ok (Py.split sep s)
  | None => Raise AttributeError
  end.

(** Lines 185-187. *)
Definition range_low (code : option string) : Result string :=
  bindR (cell_split "-" code) (fun parts => getitem parts 0).

Definition range_high (code : option string) : Result string :=
  bindR (cell_split "-" code) (fun parts =>
  bindR (getitem parts 1) (fun part => Ok (Py.ljust 7 "Z" part))).

Section Call.

(** The arguments of the call other than the sheet and the cursor. *)
Variables indata indata_code_var indata_code_type_var outdata xwhere : string.

(** Lines 153-170. *)
Definition regex_flags (df_regex : list RegexRow) : M unit :=
  let code_list := map rx_code_regex df_regex in
  let code_type_list := map rx_code_type df_regex in
  let descr_list := map rx_descr df_regex in
  for_each (enumerate code_list) (fun '(i, val) =>
    let code := val in
    code_type <- lift (getitem code_type_list i) ;;
    descr <- lift (getitem descr_list i) ;;
    execute (InsertRegexp outdata code code_type descr indata
                          indata_code_var indata_code_type_var xwhere)).

(** Lines 176-199. *)
Definition range_flags (df : list Entry) : M unit :=
  let ranges := filter (fun e => notna (code_range e)) df in
  let range_list := map code_range ranges in
  let code_type_list := map code_type ranges in
  let descr_list := map descr ranges in
  for_each (enumerate range_list) (fun '(i, val) =>
    let code := val in
    code_type <- lift (getitem code_type_list i) ;;
    descr <- lift (getitem descr_list i) ;;
    low <- lift (range_low code) ;;
    high <- lift (range_high code) ;;
    execute (InsertBetween outdata (match code with Some s => s | None => "None" end)
                           code_type descr indata indata_code_var
                           low high indata_code_type_var xwhere)).

(** The function: [sheet] is the frame read from the Excel file. *)
Definition icd_code_flags_snflk (sheet : list MapRow) : M (list Entry * list RegexRow) :=
  let df := df_comor_codes sheet in
  df_regex <- lift (df_regex_codes df) ;;
  execute (CreateTableLike outdata indata) ;;;
  execute (AlterTableAddMapColumns outdata) ;;;
  regex_flags df_regex ;;;
  range_flags df ;;;
  ret (df, df_regex).

End Call.

(** * Notions used in the statements *)

(** [pat] occurs in [s]. *)
Definition substr (pat s : string) : Prop :=
  exists a b, s = a ++ pat ++ b.

(** The character [c] occurs in [s]. *)
Definition has_char (c : ascii) (s : string) : Prop :=
  In c (list_ascii_of_string s).

(** The entry that [df_comor_codes] holds for the segment [a] of the sheet
    row [r]. *)
Definition entry_of (r : MapRow) (a : string) : Entry :=
  add_suffix (set_code_regex (set_code_range
    (mkEntry (icd_type (map_code_type r)) (map_descr r)
             (Py.replace " " "" (map_code r)) (map_code r) a None None))).

(** The segments of the code cell of [r]. *)
Definition segments (r : MapRow) : list string :=
  Py.split "," (Py.replace " " "" (map_code r)).

(** The entries of the sheet row [r]: none when the row is dropped. *)
Definition row_entries (r : MapRow) : list Entry :=
  if is_icd r then map (entry_of r) (segments r) else [].

(** The rows that reach [groupby]: those with a regex. *)
Definition patterns (df : list Entry) : list Entry :=
  filter (fun e => notna (code_regex e)) df.

(** The rows that reach the range loop. *)
Definition ranges (df : list Entry) : list Entry :=
  filter (fun e => notna (code_range e)) df.

(** The regex of an entry that has one. *)
Definition regex_text (e : Entry) : string :=
  match code_regex e with
  | Some r => r
  | None => ""
  end.

(** The members of the group [k], in the order of the frame. *)
Definition group_of (df : list Entry) (k : key) : list Entry :=
  filter (fun e => key_eqb (key_of e) k) (patterns df).

(** The row of [df_regex_codes] for the group [k]. *)
Definition regex_row (df : list Entry) (k : key) : RegexRow :=
  mkRegexRow (fst k) (snd k) (Py.join "|" (map regex_text (group_of df k))).

(** The key of a row of [df_regex_codes]. *)
Definition rx_key (r : RegexRow) : key := (rx_code_type r, rx_descr r).

(** The first and the second part of [raw.split('-')]. *)
Definition low_part (raw : string) : string := nth 0 (Py.split "-" raw) "".

Definition high_part (raw : string) : string := nth 1 (Py.split "-" raw) "".

Section Rules.

Variables indata indata_code_var indata_code_type_var outdata xwhere : string.

(** The statement of the regex rule [r]. *)
Definition regexp_stmt (r : RegexRow) : Stmt :=
  InsertRegexp outdata (rx_code_regex r) (rx_code_type r) (rx_descr r) indata
               indata_code_var indata_code_type_var xwhere.

(** The statement of the range rule of the entry [e]. *)
Definition between_stmt (e : Entry) : Stmt :=
  InsertBetween outdata (code_array e) (code_type e) (descr e) indata
                indata_code_var (low_part (code_array e))
                (Py.ljust 7 "Z" (high_part (code_array e)))
                indata_code_type_var xwhere.

End Rules.

(** The number of occurrences of the character [c] in [s]. *)
Definition count_char (c : ascii) (s : string) : nat :=
  count_occ ascii_dec (list_ascii_of_string s) c.

(** [s] ends with [suffix]. *)
Definition ends_with (suffix s : string) : Prop :=
  exists body, s = body ++ suffix.

(** The statements a call appends to the cursor it is given. *)
Definition issued {A : Type} (call : M A) : list Stmt := snd (call []).

(** [m] spells ICD, each of the three letters in upper or in lower case. *)
Definition icd_letters (m : string) : Prop :=
  exists c1 c2 c3,
    m = String c1 (String c2 (String c3 "")) /\
    (c1 = "I" \/ c1 = "i")%char /\
    (c2 = "C" \/ c2 = "c")%char /\
    (c3 = "D" \/ c3 = "d")%char.

(** The text [ct] holds ICD somewhere, in any letter case. *)
Definition contains_icd (ct : string) : Prop :=
  exists a m b, ct = a ++ m ++ b /\ icd_letters m.

(** [s] is the parts [parts] written one after the other with [sep]
    between two neighbours. *)
Inductive Joined (sep : string) : list string -> string -> Prop :=
| Joined_one (p : string) : Joined sep [p] p
| Joined_more (p q : string) (ps : list string) (s : string) :
    Joined sep (q :: ps) s -> Joined sep (p :: q :: ps) (p ++ sep ++ s).

(** The lexicographic order of strings by character code, the order in
    which Python compares two [str]. *)
Inductive str_lt : string -> string -> Prop :=
| str_lt_empty (c : ascii) (s : string) : str_lt "" (String c s)
| str_lt_head (c1 c2 : ascii) (s1 s2 : string) :
    nat_of_ascii c1 < nat_of_ascii c2 -> str_lt (String c1 s1) (String c2 s2)
| str_lt_tail (c : ascii) (s1 s2 : string) :
    str_lt s1 s2 -> str_lt (String c s1) (String c s2).

(** The order of two (code_type, category) pairs: by code_type, and by
    category when the code types are equal. *)
Definition pair_lt (k1 k2 : string * string) : Prop :=
  str_lt (fst k1) (fst k2) \/ (fst k1 = fst k2 /\ str_lt (snd k1) (snd k2)).

(** * Properties *)

(** ** Strings *)

Section StringFacts.

Lemma append_nil_r (s : string) : s ++ "" = s.
Proof. induction s as [|c s IH]; simpl; [reflexivity | now rewrite IH]. Qed.

Lemma append_assoc (a b c : string) : (a ++ b) ++ c = a ++ b ++ c.
Proof. induction a as [|x a IH]; simpl; [reflexivity | now rewrite IH]. Qed.

Lemma length_append (a b : string) :
  String.length (a ++ b) = String.length a + String.length b.
Proof. induction a as [|x a IH]; simpl; [reflexivity | now rewrite IH]. Qed.

Lemma list_ascii_append (a b : string) :
  list_ascii_of_string (a ++ b) = (list_ascii_of_string a ++ list_ascii_of_string b)%list.
Proof. induction a as [|x a IH]; simpl; [reflexivity | now rewrite IH]. Qed.

Lemma prefix_iff (p s : string) :
  String.prefix p s = true <-> exists b, s = p ++ b.
Proof.
  revert s. induction p as [|x p IH]; intros s; simpl.
  - destruct s; split; intros _; try reflexivity; eexists; reflexivity.
  - destruct s as [|y s].
    + split; [discriminate | intros [b Hb]; discriminate].
    + simpl. destruct (ascii_dec x y) as [->|Hne].
      * rewrite IH. split; intros [b Hb]; exists b.
        -- now rewrite Hb.
        -- now injection Hb.
      * split; [discriminate | intros [b Hb]; injection Hb; intros _ E].
        now elim Hne.
Qed.

Lemma contains_iff (pat s : string) :
  Py.contains pat s = true <-> substr pat s.
Proof.
  unfold substr. induction s as [|c s IH]; cbn [Py.contains].
  - rewrite orb_false_r, prefix_iff. split.
    + intros [b Hb]. exists "", b. exact Hb.
    + intros [a [b Hab]]. destruct a; [now exists b | discriminate].
  - rewrite orb_true_iff, prefix_iff, IH. split.
    + intros [[b Hb] | [a [b Hab]]].
      * exists "", b. exact Hb.
      * exists (String c a), b. simpl. now rewrite Hab.
    + intros [a [b Hab]]. destruct a as [|x a]; simpl in Hab.
      * left. now exists b.
      * right. injection Hab; intros E _. now exists a, b.
Qed.

Lemma substr_char (c : ascii) (s : string) :
  substr (String c "") s <-> has_char c s.
Proof.
  unfold substr, has_char. split.
  - intros [a [b ->]]. rewrite list_ascii_append. apply in_or_app. right. now left.
  - induction s as [|x s IH]; simpl; [tauto|]. intros [->|Hin].
    + now exists "", s.
    + destruct (IH Hin) as [a [b ->]]. now exists (String x a), b.
Qed.

Lemma contains_char (c : ascii) (s : string) :
  Py.contains (String c "") s = true <-> has_char c s.
Proof. now rewrite contains_iff, substr_char. Qed.

Lemma contains_char_false (c : ascii) (s : string) :
  Py.contains (String c "") s = false <-> ~ has_char c s.
Proof.
  rewrite <- contains_char. destruct (Py.contains (String c "") s); split; congruence.
Qed.

(** *** [split] *)

Lemma split_not_nil (sep : ascii) (s : string) : Py.split sep s <> [].
Proof.
  destruct s as [|c s]; simpl; [discriminate|].
  destruct (Ascii.eqb c sep); [discriminate|].
  destruct (Py.split sep s); discriminate.
Qed.

Lemma join_split (sep : ascii) (s : string) :
  Py.join (String sep "") (Py.split sep s) = s.
Proof.
  unfold Py.join. induction s as [|c s IH]; simpl; [reflexivity|].
  destruct (Ascii.eqb_spec c sep) as [->|Hne].
  - pose proof (split_not_nil sep s) as Hnn.
    simpl. destruct (Py.split sep s) as [|p ps]; [congruence|].
    simpl in *. now rewrite IH.
  - pose proof (split_not_nil sep s) as Hnn.
    destruct (Py.split sep s) as [|p ps]; [congruence|].
    simpl in *. destruct ps; simpl in *; now rewrite <- IH.
Qed.

Lemma split_parts_free (sep : ascii) (s : string) :
  Forall (fun part => ~ has_char sep part) (Py.split sep s).
Proof.
  unfold has_char. induction s as [|c s IH]; simpl.
  - constructor; [simpl; tauto | constructor].
  - destruct (Ascii.eqb_spec c sep) as [->|Hne].
    + constructor; [simpl; tauto | exact IH].
    + destruct (Py.split sep s) as [|p ps].
      * constructor; [simpl; intuition congruence | constructor].
      * inversion IH; subst. constructor; [simpl; intuition congruence | assumption].
Qed.

Lemma split_free (sep : ascii) (s : string) :
  ~ has_char sep s -> Py.split sep s = [s].
Proof.
  unfold has_char. induction s as [|c s IH]; simpl; intros H; [reflexivity|].
  destruct (Ascii.eqb_spec c sep) as [->|Hne]; [tauto|].
  rewrite IH by tauto. reflexivity.
Qed.

Lemma split_app (sep : ascii) (a b : string) :
  ~ has_char sep a -> Py.split sep (a ++ String sep b) = a :: Py.split sep b.
Proof.
  unfold has_char. induction a as [|c a IH]; simpl; intros H.
  - now rewrite Ascii.eqb_refl.
  - destruct (Ascii.eqb_spec c sep) as [->|Hne]; [tauto|].
    rewrite IH by tauto. reflexivity.
Qed.

Lemma split_has_two (sep : ascii) (s : string) :
  has_char sep s -> exists p q rest, Py.split sep s = p :: q :: rest.
Proof.
  unfold has_char. induction s as [|c s IH]; simpl; [tauto|]. intros H.
  destruct (Ascii.eqb_spec c sep) as [->|Hne].
  - pose proof (split_not_nil sep s).
    destruct (Py.split sep s) as [|q rest]; [congruence|]. now exists "", q, rest.
  - destruct H as [H|H]; [congruence|].
    destruct (IH H) as [p [q [rest ->]]]. now exists (String c p), q, rest.
Qed.

(** *** [replace] and [ljust] *)

Lemma replace_delete (old : ascii) (s : string) :
  list_ascii_of_string (Py.replace old "" s)
  = filter (fun c => negb (Ascii.eqb c old)) (list_ascii_of_string s).
Proof.
  induction s as [|c s IH]; simpl; [reflexivity|].
  destruct (Ascii.eqb c old); simpl; now rewrite IH.
Qed.

Lemma replace_char_length (old new : ascii) (s : string) :
  String.length (Py.replace old (String new "") s) = String.length s.
Proof.
  induction s as [|c s IH]; simpl; [reflexivity|].
  destruct (Ascii.eqb c old); simpl; now rewrite IH.
Qed.

Lemma replace_char_get (old new : ascii) (s : string) (i : nat) (c : ascii) :
  String.get i s = Some c ->
  String.get i (Py.replace old (String new "") s)
  = Some (if Ascii.eqb c old then new else c).
Proof.
  revert i. induction s as [|x s IH]; intros i; simpl; [discriminate|].
  destruct i as [|i].
  - intros [= ->]. destruct (Ascii.eqb c old); reflexivity.
  - intros H. destruct (Ascii.eqb x old); simpl; now apply IH.
Qed.

Lemma replace_char_free (old new : ascii) (s : string) :
  old <> new -> ~ has_char old (Py.replace old (String new "") s).
Proof.
  unfold has_char. intros Hne. induction s as [|c s IH]; simpl; [tauto|].
  destruct (Ascii.eqb_spec c old) as [->|Hc]; simpl; intuition congruence.
Qed.

Lemma repeat_char_length (fill : ascii) (n : nat) :
  String.length (Py.repeat_char fill n) = n.
Proof. induction n as [|n IH]; simpl; [reflexivity | now rewrite IH]. Qed.

Lemma ljust_length (width : nat) (fill : ascii) (s : string) :
  String.length (Py.ljust width fill s) = Nat.max width (String.length s).
Proof. unfold Py.ljust. rewrite length_append, repeat_char_length. lia. Qed.

Lemma ljust_long (width : nat) (fill : ascii) (s : string) :
  width <= String.length s -> Py.ljust width fill s = s.
Proof.
  unfold Py.ljust. intros H.
  replace (width - String.length s) with 0 by lia. apply append_nil_r.
Qed.

End StringFacts.

(** ** The exploded frame, row by row *)

Lemma df_comor_codes_cons (r : MapRow) (sheet : list MapRow) :
  df_comor_codes (r :: sheet) = (row_entries r ++ df_comor_codes sheet)%list.
Proof.
  unfold df_comor_codes, row_entries, select_icd, match_icd_type, explode.
  simpl. destruct (is_icd r); [|reflexivity].
  simpl. rewrite !map_app. f_equal.
  unfold explode_row, clean_up, segments, entry_of. simpl.
  rewrite !map_map. reflexivity.
Qed.

Lemma df_comor_codes_app (s1 s2 : list MapRow) :
  df_comor_codes (s1 ++ s2) = (df_comor_codes s1 ++ df_comor_codes s2)%list.
Proof.
  induction s1 as [|r s1 IH]; [reflexivity|].
  rewrite <- app_comm_cons, !df_comor_codes_cons, IH. now rewrite app_assoc.
Qed.

Lemma df_comor_codes_one (r : MapRow) : df_comor_codes [r] = row_entries r.
Proof. rewrite df_comor_codes_cons. apply app_nil_r. Qed.

Lemma in_df_comor_codes (sheet : list MapRow) (e : Entry) :
  In e (df_comor_codes sheet) <->
  exists r a, In r sheet /\ is_icd r = true /\ In a (segments r) /\ e = entry_of r a.
Proof.
  induction sheet as [|r sheet IH].
  - simpl. split; [tauto | intros [r [a [[] _]]]].
  - rewrite df_comor_codes_cons, in_app_iff, IH. unfold row_entries. split.
    + intros [H|[r' [a [Hr' H]]]].
      * destruct (is_icd r) eqn:Hicd; [|destruct H].
        apply in_map_iff in H. destruct H as [a [<- Ha]].
        exists r, a. simpl. auto.
      * exists r', a. simpl. tauto.
    + intros [r' [a [[<-|Hr'] [Hicd [Ha ->]]]]].
      * left. rewrite Hicd. now apply in_map.
      * right. now exists r', a.
Qed.

(** The columns of one entry. *)
Lemma entry_of_columns (r : MapRow) (a : string) :
  code_type (entry_of r a) = icd_type (map_code_type r) /\
  descr (entry_of r a) = map_descr r /\
  code (entry_of r a) = Py.replace " " "" (map_code r) /\
  code_orig (entry_of r a) = map_code r /\
  code_array (entry_of r a) = a.
Proof. repeat split. Qed.

Lemma entry_of_range (r : MapRow) (a : string) :
  has_char "-" a ->
  code_range (entry_of r a) = Some a /\ code_regex (entry_of r a) = None.
Proof.
  intros H. apply contains_char in H. unfold entry_of. simpl. now rewrite H.
Qed.

Lemma entry_of_pattern (r : MapRow) (a : string) :
  ~ has_char "-" a ->
  code_range (entry_of r a) = None /\
  code_regex (entry_of r a) = Some (Py.replace "x" "." a ++ ".*").
Proof.
  intros H. apply contains_char_false in H. unfold entry_of. simpl. now rewrite H.
Qed.

Lemma has_char_dec (c : ascii) (s : string) : {has_char c s} + {~ has_char c s}.
Proof. apply in_dec, ascii_dec. Qed.

Lemma notna_range_entry (r : MapRow) (a : string) :
  notna (code_range (entry_of r a)) = true <-> has_char "-" a.
Proof.
  destruct (has_char_dec "-" a) as [H|H].
  - destruct (entry_of_range r a H) as [-> _]. simpl. tauto.
  - destruct (entry_of_pattern r a H) as [-> _]. simpl. split; [discriminate | tauto].
Qed.

Lemma notna_regex_entry (r : MapRow) (a : string) :
  notna (code_regex (entry_of r a)) = true <-> ~ has_char "-" a.
Proof.
  destruct (has_char_dec "-" a) as [H|H].
  - destruct (entry_of_range r a H) as [_ ->]. simpl. split; [discriminate | tauto].
  - destruct (entry_of_pattern r a H) as [_ ->]. simpl. tauto.
Qed.

(** ** The order of the group keys *)

Section KeyOrder.

Lemma ascii_compare_refl (c : ascii) : Ascii.compare c c = Eq.
Proof. unfold Ascii.compare. apply N.compare_refl. Qed.

Lemma ascii_compare_lt_trans (a b c : ascii) :
  Ascii.compare a b = Lt -> Ascii.compare b c = Lt -> Ascii.compare a c = Lt.
Proof.
  unfold Ascii.compare. rewrite !N.compare_lt_iff. apply N.lt_trans.
Qed.

Lemma string_compare_refl (s : string) : String.compare s s = Eq.
Proof.
  induction s as [|c s IH]; simpl; [reflexivity|].
  now rewrite ascii_compare_refl.
Qed.

Lemma string_compare_eq (s t : string) : String.compare s t = Eq <-> s = t.
Proof.
  split; [apply String.compare_eq_iff | intros ->; apply string_compare_refl].
Qed.

Lemma string_compare_lt_trans (s t u : string) :
  String.compare s t = Lt -> String.compare t u = Lt -> String.compare s u = Lt.
Proof.
  revert t u. induction s as [|a s IH]; intros [|b t] [|c u]; simpl;
    try congruence.
  destruct (Ascii.compare a b) eqn:Hab; try discriminate;
    destruct (Ascii.compare b c) eqn:Hbc; try discriminate; intros H1 H2.
  - apply Ascii.compare_eq_iff in Hab, Hbc. subst.
    rewrite ascii_compare_refl. eauto.
  - apply Ascii.compare_eq_iff in Hab. subst. now rewrite Hbc.
  - apply Ascii.compare_eq_iff in Hbc. subst. now rewrite Hab.
  - now rewrite (ascii_compare_lt_trans a b c Hab Hbc).
Qed.

Lemma key_compare_refl (k : key) : key_compare k k = Eq.
Proof. unfold key_compare. now rewrite !string_compare_refl. Qed.

Lemma key_compare_eq (k1 k2 : key) : key_compare k1 k2 = Eq <-> k1 = k2.
Proof.
  split; [|intros ->; apply key_compare_refl].
  destruct k1 as [a1 b1], k2 as [a2 b2]. unfold key_compare. simpl.
  destruct (String.compare a1 a2) eqn:Ha; try discriminate.
  intros Hb. apply String.compare_eq_iff in Ha, Hb. now subst.
Qed.

Lemma key_compare_antisym (k1 k2 : key) :
  key_compare k1 k2 = CompOpp (key_compare k2 k1).
Proof.
  unfold key_compare.
  rewrite (String.compare_antisym (fst k1) (fst k2)).
  rewrite (String.compare_antisym (snd k1) (snd k2)).
  destruct (String.compare (fst k2) (fst k1)); reflexivity.
Qed.

Lemma key_lt_irrefl (k : key) : ~ key_lt k k.
Proof. unfold key_lt. now rewrite key_compare_refl. Qed.

Lemma key_lt_trans (k1 k2 k3 : key) : key_lt k1 k2 -> key_lt k2 k3 -> key_lt k1 k3.
Proof.
  destruct k1 as [a1 b1], k2 as [a2 b2], k3 as [a3 b3].
  unfold key_lt, key_compare. simpl.
  destruct (String.compare a1 a2) eqn:H12; try discriminate;
    destruct (String.compare a2 a3) eqn:H23; try discriminate; intros H1 H2.
  - apply String.compare_eq_iff in H12, H23. subst.
    rewrite string_compare_refl. eapply string_compare_lt_trans; eassumption.
  - apply String.compare_eq_iff in H12. subst. now rewrite H23.
  - apply String.compare_eq_iff in H23. subst. now rewrite H12.
  - now rewrite (string_compare_lt_trans a1 a2 a3 H12 H23).
Qed.

Lemma key_eqb_eq (k1 k2 : key) : key_eqb k1 k2 = true <-> k1 = k2.
Proof.
  destruct k1 as [a1 b1], k2 as [a2 b2]. unfold key_eqb. simpl.
  rewrite andb_true_iff, !String.eqb_eq. split; [intros [-> ->] | intros [= -> ->]]; auto.
Qed.

Lemma key_eqb_refl (k : key) : key_eqb k k = true.
Proof. now apply key_eqb_eq. Qed.

Lemma in_insert_key (k k' : key) (ks : list key) :
  In k' (insert_key k ks) <-> k' = k \/ In k' ks.
Proof.
  induction ks as [|h ks IH]; simpl; [intuition|].
  destruct (key_compare k h) eqn:Hc; simpl.
  - apply key_compare_eq in Hc. subst. intuition.
  - intuition.
  - rewrite IH. intuition.
Qed.

Lemma insert_key_sorted (k : key) (ks : list key) :
  StronglySorted key_lt ks -> StronglySorted key_lt (insert_key k ks).
Proof.
  induction 1 as [|h ks Hs IH Hall]; simpl.
  - repeat constructor.
  - destruct (key_compare k h) eqn:Hc.
    + now constructor.
    + constructor; [now constructor|]. constructor; [exact Hc|].
      eapply Forall_impl; [|exact Hall]. intros x. now apply key_lt_trans.
    + constructor; [exact IH|]. apply Forall_forall. intros x Hx.
      apply in_insert_key in Hx. destruct Hx as [->|Hx].
      * unfold key_lt. rewrite key_compare_antisym, Hc. reflexivity.
      * rewrite Forall_forall in Hall. now apply Hall.
Qed.

Lemma group_keys_sorted (df : list Entry) : StronglySorted key_lt (group_keys df).
Proof.
  unfold group_keys. induction (map key_of df) as [|k ks IH]; simpl.
  - constructor.
  - now apply insert_key_sorted.
Qed.

Lemma in_group_keys (df : list Entry) (k : key) :
  In k (group_keys df) <-> exists e, In e df /\ key_of e = k.
Proof.
  transitivity (In k (map key_of df)).
  - unfold group_keys.
    induction (map key_of df) as [|h ks IH]; simpl; [tauto|].
    rewrite in_insert_key, IH. intuition.
  - rewrite in_map_iff. split; intros [e He]; exists e; tauto.
Qed.

Lemma sorted_NoDup (ks : list key) : StronglySorted key_lt ks -> NoDup ks.
Proof.
  induction 1 as [|h ks Hs IH Hall]; constructor; [|exact IH].
  intros Hin. rewrite Forall_forall in Hall. exact (key_lt_irrefl h (Hall h Hin)).
Qed.

(** A strictly ascending list is determined by its elements. *)
Lemma sorted_unique (l1 l2 : list key) :
  StronglySorted key_lt l1 -> StronglySorted key_lt l2 ->
  (forall k, In k l1 <-> In k l2) -> l1 = l2.
Proof.
  intros H1. revert l2. induction H1 as [|h1 l1 Hs1 IH Hall1]; intros l2 H2 Heq.
  - destruct l2 as [|h2 l2]; [reflexivity|]. destruct (proj2 (Heq h2)). now left.
  - destruct H2 as [|h2 l2 Hs2 Hall2].
    + destruct (proj1 (Heq h1)). now left.
    + rewrite Forall_forall in Hall1, Hall2.
      assert (h1 = h2) as ->.
      { destruct (proj1 (Heq h1) (or_introl eq_refl)) as [E|Hin1]; [now symmetry|].
        destruct (proj2 (Heq h2) (or_introl eq_refl)) as [E|Hin2]; [assumption|].
        exfalso. apply (key_lt_irrefl h1).
        eapply key_lt_trans; [apply Hall1, Hin2 | apply Hall2, Hin1]. }
      f_equal. apply IH; [assumption|]. intros k. split; intros Hk.
      * destruct (proj1 (Heq k) (or_intror Hk)) as [<-|]; [|assumption].
        exfalso. exact (key_lt_irrefl _ (Hall1 _ Hk)).
      * destruct (proj2 (Heq k) (or_intror Hk)) as [<-|]; [|assumption].
        exfalso. exact (key_lt_irrefl _ (Hall2 _ Hk)).
Qed.

End KeyOrder.

(** ** The grouped frame *)

Lemma mapR_ok {A B : Type} (f : A -> Result B) (g : A -> B) (l : list A) :
  (forall a, In a l -> f a = Ok (g a)) -> mapR f l = Ok (map g l).
Proof.
  induction l as [|a l IH]; intros H; simpl; [reflexivity|].
  rewrite (H a (or_introl eq_refl)). simpl.
  rewrite IH by (intros; apply H; now right). reflexivity.
Qed.

Lemma join_column_ok (sep : string) (g : list Entry) :
  (forall e, In e g -> notna (code_regex e) = true) ->
  join_column sep (map code_regex g) = Ok (Py.join sep (map regex_text g)).
Proof.
  intros H. unfold join_column.
  rewrite (mapR_ok str_item (fun c => match c with Some r => r | None => "" end)).
  - simpl. now rewrite map_map.
  - intros c Hc. apply in_map_iff in Hc. destruct Hc as [e [<- He]].
    specialize (H e He). destruct (code_regex e); [reflexivity | discriminate].
Qed.

(** [groupby(...).apply('|'.join)] never raises: one row per group key. *)
Lemma df_regex_codes_ok (df : list Entry) :
  df_regex_codes df = Ok (map (regex_row df) (group_keys (patterns df))).
Proof.
  unfold df_regex_codes, groupby. fold (patterns df).
  rewrite (mapR_ok apply_join
             (fun g => mkRegexRow (fst (fst g)) (snd (fst g))
                                  (Py.join "|" (map regex_text (snd g))))).
  - now rewrite map_map.
  - intros g Hg. apply in_map_iff in Hg. destruct Hg as [k [<- _]].
    unfold apply_join. simpl. rewrite join_column_ok; [reflexivity|].
    intros e He. apply filter_In in He. destruct He as [He _].
    apply filter_In in He. tauto.
Qed.

(** ** The two loops *)

Lemma for_each_enumerate {R A : Type} (rows : list R) (f : R -> A)
      (body : nat * A -> M unit) (g : R -> Stmt) :
  (forall i r, nth_error rows i = Some r ->
               forall cur, body (i, f r) cur = (Ok tt, cur ++ [g r])%list) ->
  forall cur, for_each (enumerate (map f rows)) body cur
              = (Ok tt, cur ++ map g rows)%list.
Proof.
  unfold enumerate. rewrite length_map.
  assert (forall n cur,
    (forall i r, nth_error rows i = Some r ->
                 forall cur, body (n + i, f r) cur = (Ok tt, cur ++ [g r])%list) ->
    for_each (combine (seq n (List.length rows)) (map f rows)) body cur
    = (Ok tt, cur ++ map g rows)%list) as Hgen.
  { induction rows as [|r rows IH]; intros n cur H; simpl.
    - unfold ret. now rewrite app_nil_r.
    - unfold bind at 1. specialize (H 0 r eq_refl cur) as H0.
      rewrite Nat.add_0_r in H0. rewrite H0.
      rewrite IH.
      + now rewrite <- app_assoc.
      + intros i r' Hi cur'. specialize (H (S i) r' Hi cur').
        now rewrite Nat.add_succ_r in H. }
  intros H cur. apply Hgen. exact H.
Qed.

Lemma getitem_map {R A : Type} (f : R -> A) (rows : list R) (i : nat) (r : R) :
  nth_error rows i = Some r -> getitem (map f rows) i = Ok (f r).
Proof. intros H. unfold getitem. now rewrite (map_nth_error f i rows H). Qed.

(** A cell with a hyphen always has the two parts that lines 185 and 187
    index. *)
Lemma range_low_ok (raw : string) :
  has_char "-" raw -> range_low (Some raw) = Ok (low_part raw).
Proof.
  intros H. destruct (split_has_two "-" raw H) as [p [q [rest Hs]]].
  unfold range_low, low_part. simpl. now rewrite Hs.
Qed.

Lemma range_high_ok (raw : string) :
  has_char "-" raw -> range_high (Some raw) = Ok (Py.ljust 7 "Z" (high_part raw)).
Proof.
  intros H. destruct (split_has_two "-" raw H) as [p [q [rest Hs]]].
  unfold range_high, high_part. simpl. now rewrite Hs.
Qed.

(** The rows of the range loop are the entries with a hyphen. *)
Lemma in_ranges (sheet : list MapRow) (e : Entry) :
  In e (ranges (df_comor_codes sheet)) <->
  In e (df_comor_codes sheet) /\ has_char "-" (code_array e) /\
  code_range e = Some (code_array e).
Proof.
  unfold ranges. rewrite filter_In. split.
  - intros [Hin Hn]. split; [assumption|].
    apply in_df_comor_codes in Hin. destruct Hin as [r [a [_ [_ [_ ->]]]]].
    apply notna_range_entry in Hn. split; [exact Hn|].
    now destruct (entry_of_range r a Hn).
  - intros [Hin [_ Hr]]. split; [assumption|]. now rewrite Hr.
Qed.

Lemma in_patterns (sheet : list MapRow) (e : Entry) :
  In e (patterns (df_comor_codes sheet)) <->
  In e (df_comor_codes sheet) /\ ~ has_char "-" (code_array e) /\
  code_regex e = Some (Py.replace "x" "." (code_array e) ++ ".*").
Proof.
  unfold patterns. rewrite filter_In. split.
  - intros [Hin Hn]. split; [assumption|].
    apply in_df_comor_codes in Hin. destruct Hin as [r [a [_ [_ [_ ->]]]]].
    apply notna_regex_entry in Hn. split; [exact Hn|].
    now destruct (entry_of_pattern r a Hn).
  - intros [Hin [_ Hr]]. split; [assumption|]. now rewrite Hr.
Qed.

Section CallFacts.

Variables indata indata_code_var indata_code_type_var outdata xwhere : string.

Lemma regex_flags_ok (df_regex : list RegexRow) (cur : Cursor) :
  regex_flags indata indata_code_var indata_code_type_var outdata xwhere df_regex cur
  = (Ok tt, cur ++ map (regexp_stmt indata indata_code_var indata_code_type_var outdata xwhere) df_regex)%list.
Proof.
  unfold regex_flags. apply for_each_enumerate.
  intros i r Hi cur'. unfold bind, lift.
  rewrite (getitem_map rx_code_type df_regex i r Hi).
  rewrite (getitem_map rx_descr df_regex i r Hi).
  reflexivity.
Qed.

Lemma range_flags_ok (sheet : list MapRow) (cur : Cursor) :
  range_flags indata indata_code_var indata_code_type_var outdata xwhere
              (df_comor_codes sheet) cur
  = (Ok tt, cur ++ map (between_stmt indata indata_code_var indata_code_type_var outdata xwhere) (ranges (df_comor_codes sheet)))%list.
Proof.
  unfold range_flags. fold (ranges (df_comor_codes sheet)).
  apply for_each_enumerate.
  intros i e Hi cur'. unfold bind, lift.
  rewrite (getitem_map code_type _ i e Hi).
  rewrite (getitem_map descr _ i e Hi).
  apply nth_error_In, in_ranges in Hi. destruct Hi as [_ [Hh Hr]].
  rewrite Hr, (range_low_ok _ Hh), (range_high_ok _ Hh).
  reflexivity.
Qed.

(** The call never raises; it returns the two frames and has executed the
    two DDL statements, one INSERT per regex row and one per range entry. *)
Lemma icd_code_flags_snflk_ok (sheet : list MapRow) (cur : Cursor) :
  let df := df_comor_codes sheet in
  let df_regex := map (regex_row df) (group_keys (patterns df)) in
  icd_code_flags_snflk indata indata_code_var indata_code_type_var outdata xwhere
                       sheet cur
  = (Ok (df, df_regex),
     cur ++ [CreateTableLike outdata indata; AlterTableAddMapColumns outdata]
         ++ map (regexp_stmt indata indata_code_var indata_code_type_var outdata xwhere) df_regex
         ++ map (between_stmt indata indata_code_var indata_code_type_var outdata xwhere) (ranges df))%list.
Proof.
  intros df df_regex. unfold icd_code_flags_snflk. fold df.
  unfold bind at 1. unfold lift. rewrite df_regex_codes_ok. fold df_regex.
  unfold bind at 1. unfold execute at 1.
  unfold bind at 1. unfold execute at 1.
  unfold bind at 1. rewrite regex_flags_ok.
  unfold bind at 1. unfold df. rewrite range_flags_ok.
  unfold ret. rewrite <- !app_assoc. reflexivity.
Qed.

End CallFacts.

(** ** The parts of a range *)

(** The first part of a split is the text before the first separator. *)
Lemma split_first (sep : ascii) (s : string) :
  exists p, ~ has_char sep p /\
    ((s = p /\ Py.split sep s = [p]) \/
     (exists t, s = p ++ String sep t /\ Py.split sep s = p :: Py.split sep t)).
Proof.
  induction s as [|c s IH].
  - exists "". split; [intros []|]. left. split; reflexivity.
  - destruct (Ascii.eqb_spec c sep) as [->|Hne].
    + exists "". split; [intros []|]. right. exists s. split; [reflexivity|].
      simpl. now rewrite Ascii.eqb_refl.
    + destruct IH as [p [Hp IH]]. exists (String c p). split.
      { unfold has_char in *. simpl. intuition congruence. }
      assert (Ascii.eqb c sep = false) as Hc by now apply Ascii.eqb_neq.
      destruct IH as [[-> Hs]|[t [-> Hs]]].
      * left. split; [reflexivity|]. simpl. now rewrite Hc, Hs.
      * right. exists t. split; [reflexivity|]. simpl. now rewrite Hc, Hs.
Qed.

(** A cell with a hyphen reads [lo-hi] or [lo-hi-...]: the two parts that
    the range loop takes are [lo] and [hi]. *)
Lemma range_parts (raw : string) :
  has_char "-" raw ->
  exists lo hi rest,
    raw = lo ++ "-" ++ hi ++ rest /\
    ~ has_char "-" lo /\ ~ has_char "-" hi /\
    (rest = "" \/ exists t, rest = "-" ++ t) /\
    low_part raw = lo /\ high_part raw = hi.
Proof.
  intros H. destruct (split_first "-" raw) as [lo [Hlo [[-> _]|[t [-> Hs]]]]];
    [contradiction|].
  destruct (split_first "-" t) as [hi [Hhi Ht]].
  unfold low_part, high_part. rewrite Hs.
  destruct Ht as [[-> Hs']|[u [-> Hs']]]; rewrite Hs'.
  - exists lo, hi, "". rewrite append_nil_r. repeat split; auto.
  - exists lo, hi, (String "-" u). repeat split; auto. right. now exists u.
Qed.

Lemma range_parts_two (lo hi : string) :
  ~ has_char "-" lo -> ~ has_char "-" hi ->
  low_part (lo ++ "-" ++ hi) = lo /\ high_part (lo ++ "-" ++ hi) = hi.
Proof.
  intros Hlo Hhi. unfold low_part, high_part. simpl.
  rewrite (split_app "-" lo hi Hlo), (split_free "-" hi Hhi). now split.
Qed.

Lemma has_char_app_sep (c : ascii) (a b : string) : has_char c (a ++ String c b).
Proof.
  unfold has_char. rewrite list_ascii_append. apply in_or_app. right. now left.
Qed.

(** An entry of the frame reaches the grouping when it has no hyphen and
    the range loop when it has one. *)
Lemma pattern_entry (sheet : list MapRow) (e : Entry) :
  In e (df_comor_codes sheet) -> ~ has_char "-" (code_array e) ->
  In e (patterns (df_comor_codes sheet)).
Proof.
  intros Hin Hfree. unfold patterns. apply filter_In. split; [assumption|].
  apply in_df_comor_codes in Hin. destruct Hin as [r [a [_ [_ [_ ->]]]]].
  now apply notna_regex_entry.
Qed.

Lemma range_entry (sheet : list MapRow) (e : Entry) :
  In e (df_comor_codes sheet) -> has_char "-" (code_array e) ->
  In e (ranges (df_comor_codes sheet)).
Proof.
  intros Hin Hh. unfold ranges. apply filter_In. split; [assumption|].
  apply in_df_comor_codes in Hin. destruct Hin as [r [a [_ [_ [_ ->]]]]].
  now apply notna_range_entry.
Qed.

(** ** Letter case *)

Lemma upper_append (a b : string) : Py.upper (a ++ b) = Py.upper a ++ Py.upper b.
Proof. induction a as [|c a IH]; simpl; [reflexivity | now rewrite IH]. Qed.

Lemma upper_append_inv (s a b : string) :
  Py.upper s = a ++ b ->
  exists s1 s2, s = s1 ++ s2 /\ Py.upper s1 = a /\ Py.upper s2 = b.
Proof.
  revert s. induction a as [|c a IH]; intros s H.
  - exists "", s. auto.
  - destruct s as [|x s]; [discriminate|].
    simpl in H. injection H as Hc Hs.
    destruct (IH s Hs) as [s1 [s2 [-> [H1 H2]]]].
    exists (String x s1), s2. simpl. now rewrite Hc, H1.
Qed.

Ltac upper_cases c :=
  destruct c as [[] [] [] [] [] [] [] []]; vm_compute;
  (split;
   [ intros H; first [discriminate H | left; reflexivity | right; reflexivity]
   | intros [H|H]; first [discriminate H | reflexivity] ]).

Lemma upper_ascii_I (c : ascii) :
  Py.upper_ascii c = "I"%char <-> (c = "I" \/ c = "i")%char.
Proof. upper_cases c. Qed.

Lemma upper_ascii_C (c : ascii) :
  Py.upper_ascii c = "C"%char <-> (c = "C" \/ c = "c")%char.
Proof. upper_cases c. Qed.

Lemma upper_ascii_D (c : ascii) :
  Py.upper_ascii c = "D"%char <-> (c = "D" \/ c = "d")%char.
Proof. upper_cases c. Qed.

Lemma upper_icd_letters (m : string) : Py.upper m = "ICD" <-> icd_letters m.
Proof.
  unfold icd_letters. split.
  - destruct m as [|c1 [|c2 [|c3 [|c4 m]]]]; simpl; try discriminate.
    intros [= H1 H2 H3]. exists c1, c2, c3.
    rewrite <- upper_ascii_I, <- upper_ascii_C, <- upper_ascii_D. auto.
  - intros [c1 [c2 [c3 [-> [H1 [H2 H3]]]]]].
    apply upper_ascii_I in H1. apply upper_ascii_C in H2. apply upper_ascii_D in H3.
    simpl. now rewrite H1, H2, H3.
Qed.

(** The filter of line 88 keeps the rows with ICD in any letter case. *)
Lemma is_icd_letters (r : MapRow) :
  is_icd r = true <-> contains_icd (map_code_type r).
Proof.
  unfold is_icd, contains_icd. rewrite contains_iff. unfold substr. split.
  - intros [a' [b' Hu]].
    destruct (upper_append_inv _ _ _ Hu) as [a [s2 [Hct [_ H2]]]].
    destruct (upper_append_inv _ _ _ H2) as [m [b [-> [Hm _]]]].
    exists a, m, b. split; [exact Hct | now apply upper_icd_letters].
  - intros [a [m [b [-> Hm]]]]. apply upper_icd_letters in Hm.
    exists (Py.upper a), (Py.upper b). now rewrite !upper_append, Hm.
Qed.

(** ** Joined parts *)

Lemma joined_concat (sep : string) (parts : list string) :
  parts <> [] -> Joined sep parts (String.concat sep parts).
Proof.
  induction parts as [|p ps IH]; [congruence|]. intros _.
  destruct ps as [|q ps]; [constructor|].
  change (String.concat sep (p :: q :: ps))
    with (p ++ sep ++ String.concat sep (q :: ps)).
  constructor. apply IH. discriminate.
Qed.

Lemma forall2_map_r {A C : Type} (R : A -> C -> Prop) (g : A -> C) (l : list A) :
  (forall a, In a l -> R a (g a)) -> Forall2 R l (map g l).
Proof.
  induction l as [|a l IH]; intros H; simpl; constructor.
  - apply H. now left.
  - apply IH. intros x Hx. apply H. now right.
Qed.

(** ** The order of Python strings *)

Lemma compare_lt_str_lt (s t : string) : String.compare s t = Lt -> str_lt s t.
Proof.
  revert t. induction s as [|a s IH]; intros [|b t]; simpl; try discriminate.
  - intros _. constructor.
  - destruct (Ascii.compare a b) eqn:E; try discriminate.
    + apply Ascii.compare_eq_iff in E. subst b. intros H. apply str_lt_tail. now apply IH.
    + intros _. apply str_lt_head. unfold Ascii.compare in E.
      rewrite N2Nat.inj_compare in E. now apply Nat.compare_lt_iff.
Qed.

Lemma key_lt_pair_lt (k1 k2 : key) : key_lt k1 k2 -> pair_lt k1 k2.
Proof.
  unfold key_lt, key_compare, pair_lt.
  destruct (String.compare (fst k1) (fst k2)) eqn:E; try discriminate.
  - intros H. right. split; [now apply String.compare_eq_iff | now apply compare_lt_str_lt].
  - intros _. left. now apply compare_lt_str_lt.
Qed.

Lemma sorted_impl {A : Type} (R R' : A -> A -> Prop) (l : list A) :
  (forall x y, R x y -> R' x y) -> StronglySorted R l -> StronglySorted R' l.
Proof.
  intros Himp. induction 1 as [|a l _ IH Hall]; constructor; [exact IH|].
  eapply Forall_impl; [|exact Hall]. intros x. apply Himp.
Qed.

(** * The claims *)

(** ** Entry kinds *)

(** C2. Every entry of the exploded frame is of exactly one kind, and the
    kind is decided by the hyphen: the entry has a [code_range] (and goes to
    the range loop) if and only if its raw string [code_array] contains a
    hyphen, it has a [code_regex] (and goes to the grouping) if and only if
    it contains none, and it never has both or neither. *)
Theorem entry_kind_by_hyphen (sheet : list MapRow) (e : Entry) :
  In e (df_comor_codes sheet) ->
  (notna (code_range e) = true <-> has_char "-" (code_array e)) /\
  (notna (code_regex e) = true <-> ~ has_char "-" (code_array e)) /\
  notna (code_range e) = negb (notna (code_regex e)) /\
  (In e (ranges (df_comor_codes sheet)) <-> has_char "-" (code_array e)) /\
  (In e (patterns (df_comor_codes sheet)) <-> ~ has_char "-" (code_array e)).
Proof.
  intros Hin. pose proof Hin as Hin'.
  apply in_df_comor_codes in Hin'. destruct Hin' as [r [a [_ [_ [_ He]]]]].
  assert (code_array e = a) as Ha by now subst.
  assert (notna (code_range e) = true <-> has_char "-" (code_array e)) as Hr.
  { rewrite Ha, He. apply notna_range_entry. }
  assert (notna (code_regex e) = true <-> ~ has_char "-" (code_array e)) as Hp.
  { rewrite Ha, He. apply notna_regex_entry. }
  split; [exact Hr|]. split; [exact Hp|]. split.
  - destruct (notna (code_range e)), (notna (code_regex e)); simpl; try reflexivity;
      exfalso; destruct (has_char_dec "-" (code_array e)); intuition congruence.
  - unfold ranges, patterns. rewrite !filter_In. tauto.
Qed.

Lemma entry_kind_by_hyphen_witness :
  let sheet := [mkMapRow "ICD-9" "250.x, 250.1-250.3" "Diabetes"] in
  let e := mkEntry "9" "Diabetes" "250.x,250.1-250.3" "250.x, 250.1-250.3"
                   "250.1-250.3" (Some "250.1-250.3") None in
  In e (df_comor_codes sheet) /\
  (notna (code_range e) = true <-> has_char "-" (code_array e)).
Proof.
  intros sheet e.
  assert (In e (df_comor_codes sheet)) as Hin by (vm_compute; tauto).
  split; [exact Hin|].
  exact (proj1 (entry_kind_by_hyphen sheet e Hin)).
Defined.

(** ** Patterns *)

(** C3. For every entry without a hyphen, the matching expression
    [code_regex] is a body followed by the suffix [.*]; the body has the
    length of the raw string and, position by position, holds [.] where the
    raw string holds a lowercase [x] and the raw character everywhere else
    (so an uppercase [X] stays); no lowercase [x] is left in the body. *)
Theorem pattern_expression (sheet : list MapRow) (e : Entry) :
  In e (df_comor_codes sheet) ->
  ~ has_char "-" (code_array e) ->
  exists body,
    code_regex e = Some (body ++ ".*") /\
    String.length body = String.length (code_array e) /\
    (forall i c, String.get i (code_array e) = Some c ->
                 String.get i body = Some (if Ascii.eqb c "x" then "."%char else c)) /\
    (forall i, String.get i (code_array e) = Some "X"%char ->
               String.get i body = Some "X"%char) /\
    ~ has_char "x" body.
Proof.
  intros Hin Hfree.
  pose proof (pattern_entry sheet e Hin Hfree) as Hp.
  apply in_patterns in Hp. destruct Hp as [_ [_ Hre]].
  exists (Py.replace "x" "." (code_array e)).
  split; [exact Hre|]. split; [apply replace_char_length|].
  split; [intros i c; apply replace_char_get|]. split.
  - intros i Hi. now rewrite (replace_char_get "x" "." _ i "X" Hi).
  - apply replace_char_free. discriminate.
Qed.

Lemma pattern_expression_witness :
  let sheet := [mkMapRow "ICD10" "I11x, Xx9" "Hypertension"] in
  let e := mkEntry "10" "Hypertension" "I11x,Xx9" "I11x, Xx9" "Xx9" None (Some "X.9.*") in
  In e (df_comor_codes sheet) /\ ~ has_char "-" (code_array e) /\
  exists body,
    code_regex e = Some (body ++ ".*") /\
    String.length body = String.length (code_array e) /\
    (forall i c, String.get i (code_array e) = Some c ->
                 String.get i body = Some (if Ascii.eqb c "x" then "."%char else c)) /\
    (forall i, String.get i (code_array e) = Some "X"%char ->
               String.get i body = Some "X"%char) /\
    ~ has_char "x" body.
Proof.
  intros sheet e.
  assert (In e (df_comor_codes sheet)) as Hin by (vm_compute; tauto).
  assert (~ has_char "-" (code_array e)) as Hfree.
  { apply contains_char_false. reflexivity. }
  split; [exact Hin|]. split; [exact Hfree|].
  exact (pattern_expression sheet e Hin Hfree).
Defined.

(** ** Ranges *)

(** C4. For every entry that reads [lo-hi] with no further hyphen, the range
    rule issued for it has [range_low = lo], verbatim, and [range_high = hi]
    followed by as many ['Z'] as it takes to reach 7 characters (none when
    [hi] already has 7 or more): [range_high] has exactly 7 characters when
    [hi] is shorter than 7, and is [hi] itself otherwise. *)
Theorem range_rule_bounds
    (indata indata_code_var indata_code_type_var outdata xwhere : string)
    (sheet : list MapRow) (cur : Cursor) (e : Entry) (lo hi : string) :
  In e (df_comor_codes sheet) ->
  code_array e = lo ++ "-" ++ hi ->
  ~ has_char "-" lo -> ~ has_char "-" hi ->
  let high := hi ++ Py.repeat_char "Z" (7 - String.length hi) in
  range_low (code_range e) = Ok lo /\
  range_high (code_range e) = Ok high /\
  In (InsertBetween outdata (code_array e) (code_type e) (descr e) indata
                    indata_code_var lo high indata_code_type_var xwhere)
     (snd (icd_code_flags_snflk indata indata_code_var indata_code_type_var
                                outdata xwhere sheet cur)) /\
  (String.length hi < 7 -> String.length high = 7) /\
  (7 <= String.length hi -> high = hi).
Proof.
  intros Hin Hraw Hlo Hhi high.
  assert (has_char "-" (code_array e)) as Hh.
  { rewrite Hraw. apply has_char_app_sep. }
  pose proof (range_entry sheet e Hin Hh) as Hr.
  destruct (proj1 (in_ranges sheet e) Hr) as [_ [_ Hcr]].
  destruct (range_parts_two lo hi Hlo Hhi) as [Hl Hg].
  rewrite <- Hraw in Hl, Hg.
  assert (Py.ljust 7 "Z" hi = high) as Hpad by reflexivity.
  split; [|split; [|split; [|split]]].
  - now rewrite Hcr, (range_low_ok _ Hh), Hl.
  - now rewrite Hcr, (range_high_ok _ Hh), Hg.
  - rewrite icd_code_flags_snflk_ok. simpl.
    apply in_or_app. right. right. right. apply in_or_app. right.
    apply in_map_iff. exists e. split; [|exact Hr].
    unfold between_stmt. now rewrite Hl, Hg.
  - intros Hlt. rewrite <- Hpad, ljust_length. lia.
  - intros Hge. rewrite <- Hpad. now apply ljust_long.
Qed.

Lemma range_rule_bounds_witness :
  let sheet := [mkMapRow "ICD-9" "250.x, 250.1-250.3" "Diabetes"] in
  let e := mkEntry "9" "Diabetes" "250.x,250.1-250.3" "250.x, 250.1-250.3"
                   "250.1-250.3" (Some "250.1-250.3") None in
  In e (df_comor_codes sheet) /\
  code_array e = "250.1" ++ "-" ++ "250.3" /\
  ~ has_char "-" "250.1" /\ ~ has_char "-" "250.3" /\
  range_low (code_range e) = Ok "250.1" /\
  range_high (code_range e) = Ok "250.3ZZ" /\
  In (InsertBetween "OUT" "250.1-250.3" "9" "Diabetes" "IN" "dx"
                    "250.1" "250.3ZZ" "icd_type" "")
     (snd (icd_code_flags_snflk "IN" "dx" "icd_type" "OUT" "" sheet [])).
Proof.
  intros sheet e.
  assert (In e (df_comor_codes sheet)) as Hin by (vm_compute; tauto).
  assert (~ has_char "-" "250.1") as Hlo by (apply contains_char_false; reflexivity).
  assert (~ has_char "-" "250.3") as Hhi by (apply contains_char_false; reflexivity).
  split; [exact Hin|]. split; [reflexivity|]. split; [exact Hlo|]. split; [exact Hhi|].
  destruct (range_rule_bounds "IN" "dx" "icd_type" "OUT" "" sheet [] e
              "250.1" "250.3" Hin eq_refl Hlo Hhi) as [H1 [H2 [H3 _]]].
  split; [exact H1|]. split; [exact H2|]. exact H3.
Defined.




(** ** Grouping *)

Lemma groupby_keys (df : list Entry) : map fst (groupby df) = group_keys df.
Proof. unfold groupby. rewrite map_map. simpl. apply map_id. Qed.

Lemma regex_rows_keys (df : list Entry) (ks : list key) :
  map rx_key (map (regex_row df) ks) = ks.
Proof.
  rewrite map_map. rewrite <- (map_id ks) at 2. apply map_ext.
  intros [a b]. reflexivity.
Qed.

Lemma in_df_comor_codes_perm (s1 s2 : list MapRow) (e : Entry) :
  Permutation s1 s2 -> In e (df_comor_codes s1) -> In e (df_comor_codes s2).
Proof.
  intros Hp Hin. apply in_df_comor_codes in Hin.
  destruct Hin as [r [a [Hr H]]]. apply in_df_comor_codes.
  exists r, a. split; [|exact H]. eapply Permutation_in; eassumption.
Qed.

Lemma group_keys_perm (s1 s2 : list MapRow) :
  Permutation s1 s2 ->
  group_keys (patterns (df_comor_codes s1)) = group_keys (patterns (df_comor_codes s2)).
Proof.
  intros Hp. apply sorted_unique; try apply group_keys_sorted.
  intros k. rewrite !in_group_keys.
  split; intros [e [He Hk]]; exists e; (split; [|exact Hk]);
    unfold patterns in *; rewrite filter_In in *;
    (split; [|tauto]); destruct He as [He _].
  - eapply in_df_comor_codes_perm; eassumption.
  - eapply in_df_comor_codes_perm; [apply Permutation_sym|]; eassumption.
Qed.

(** The members of a group of the grouped frame. *)
Lemma group_members (sheet : list MapRow) (k : key) :
  In k (group_keys (patterns (df_comor_codes sheet))) ->
  group_of (df_comor_codes sheet) k <> [] /\
  forall e, In e (group_of (df_comor_codes sheet) k) ->
    In e (df_comor_codes sheet) /\ ~ has_char "-" (code_array e) /\
    regex_text e = Py.replace "x" "." (code_array e) ++ ".*".
Proof.
  intros Hk. split.
  - apply in_group_keys in Hk. destruct Hk as [e [He Hke]].
    intros Hnil.
    assert (In e (group_of (df_comor_codes sheet) k)) as Hin.
    { unfold group_of. apply filter_In. split; [exact He | now apply key_eqb_eq]. }
    rewrite Hnil in Hin. destruct Hin.
  - intros e He. unfold group_of in He. apply filter_In in He.
    destruct He as [He _]. apply in_patterns in He.
    destruct He as [Hin [Hfree Hre]]. split; [exact Hin|]. split; [exact Hfree|].
    unfold regex_text. now rewrite Hre.
Qed.

(** C5. The pattern entries are the entries of the frame without a hyphen.
    The groups made by [groupby] are one per distinct pair of code_type and
    category found among them; the members of a group are exactly the
    pattern entries with its code_type and its category, in row order, and
    there is at least one; two pattern entries are members of one group if
    and only if they have the same code_type and the same category.
    [df_regex_codes] has one row per group, in the order of the groups,
    with the code_type and the category of the group; its expression is
    the [code_regex] of the first member, then for every further member, in
    row order, a ['|'] and the [code_regex] of that member. *)
Theorem pattern_rules_by_key (sheet : list MapRow) :
  let pats := patterns (df_comor_codes sheet) in
  let groups := groupby pats in
  (forall e, In e pats <->
             In e (df_comor_codes sheet) /\ ~ has_char "-" (code_array e)) /\
  NoDup (map fst groups) /\
  (forall ct d, In (ct, d) (map fst groups) <->
                exists e, In e pats /\ code_type e = ct /\ descr e = d) /\
  (forall ct d members, In ((ct, d), members) groups ->
     members = filter (fun e => String.eqb (code_type e) ct
                                && String.eqb (descr e) d) pats /\
     members <> []) /\
  (forall e1 e2, In e1 pats -> In e2 pats ->
     ((exists g, In g groups /\ In e1 (snd g) /\ In e2 (snd g))
      <-> code_type e1 = code_type e2 /\ descr e1 = descr e2)) /\
  exists rules,
    df_regex_codes (df_comor_codes sheet) = Ok rules /\
    Forall2 (fun g rule =>
               rx_code_type rule = fst (fst g) /\
               rx_descr rule = snd (fst g) /\
               exists parts,
                 Forall2 (fun e part => code_regex e = Some part) (snd g) parts /\
                 Joined "|" parts (rx_code_regex rule))
            groups rules.
Proof.
  intros pats groups.
  assert (forall g, In g groups ->
            In (fst g) (group_keys pats) /\
            snd g = filter (fun e => key_eqb (key_of e) (fst g)) pats) as Hg.
  { intros g Hin. unfold groups, groupby in Hin. apply in_map_iff in Hin.
    destruct Hin as [k [<- Hk]]. simpl. now split. }
  assert (forall g, In g groups -> snd g <> []) as Hne.
  { intros g Hin. destruct (Hg g Hin) as [Hk Hm].
    apply in_group_keys in Hk. destruct Hk as [e [He Hk]].
    rewrite Hm. intros Hnil.
    assert (In e (filter (fun e => key_eqb (key_of e) (fst g)) pats)) as Hin'.
    { apply filter_In. split; [exact He|]. now apply key_eqb_eq. }
    rewrite Hnil in Hin'. destruct Hin'. }
  assert (forall e1 e2 : Entry,
            key_of e1 = key_of e2 <->
            code_type e1 = code_type e2 /\ descr e1 = descr e2) as Hkey.
  { intros e1 e2. unfold key_of. split; [intros [= -> ->] | intros [-> ->]]; auto. }
  split; [|split; [|split; [|split; [|split]]]].
  - intros e. unfold pats. rewrite in_patterns. split; [tauto|].
    intros [Hin Hfree]. apply in_patterns. now apply pattern_entry.
  - unfold groups. rewrite groupby_keys. apply sorted_NoDup, group_keys_sorted.
  - intros ct d. unfold groups. rewrite groupby_keys, in_group_keys.
    split; intros [e [He Hk]]; exists e.
    + unfold key_of in Hk. injection Hk as Hct Hd. auto.
    + destruct Hk as [Hct Hd]. unfold key_of. rewrite Hct, Hd. auto.
  - intros ct d members Hin. split; [|exact (Hne _ Hin)].
    destruct (Hg _ Hin) as [_ Hm]. exact Hm.
  - intros e1 e2 H1 H2. rewrite <- Hkey. split.
    + intros [g [Hin [Hm1 Hm2]]]. destruct (Hg g Hin) as [_ Hm].
      rewrite Hm in Hm1, Hm2. apply filter_In in Hm1, Hm2.
      destruct Hm1 as [_ Hm1], Hm2 as [_ Hm2].
      apply key_eqb_eq in Hm1, Hm2. congruence.
    + intros Hk.
      exists (key_of e1, filter (fun e => key_eqb (key_of e) (key_of e1)) pats).
      split; [|split].
      * unfold groups, groupby.
        apply (in_map (fun k => (k, filter (fun e => key_eqb (key_of e) k) pats))).
        apply in_group_keys. now exists e1.
      * simpl. apply filter_In. split; [exact H1 | apply key_eqb_refl].
      * simpl. apply filter_In. split; [exact H2|]. now apply key_eqb_eq.
  - eexists. split; [apply df_regex_codes_ok|]. fold pats.
    assert (map (regex_row (df_comor_codes sheet)) (group_keys pats)
            = map (fun g => mkRegexRow (fst (fst g)) (snd (fst g))
                                       (Py.join "|" (map regex_text (snd g))))
                  groups) as ->.
    { unfold groups, groupby. rewrite map_map. reflexivity. }
    apply forall2_map_r.
    intros g Hin. cbn beta. split; [reflexivity|]. split; [reflexivity|].
    exists (map regex_text (snd g)). split.
    + apply forall2_map_r.
      intros e He. destruct (Hg g Hin) as [_ Hm].
      assert (In e (filter (fun e => key_eqb (key_of e) (fst g)) pats)) as He'
        by exact (eq_ind _ (In e) He _ Hm).
      clear He. apply filter_In in He'. destruct He' as [He _].
      apply in_patterns in He. destruct He as [_ [_ Hre]].
      unfold regex_text. now rewrite Hre.
    + unfold Py.join. apply joined_concat.
      intros Hnil. apply map_eq_nil in Hnil. exact (Hne g Hin Hnil).
Qed.

(** Example 2 of the specification: two rows of one group give one rule. *)
Example hypertension_merged :
  df_regex_codes (df_comor_codes [mkMapRow "ICD10" "I10" "Hypertension";
                                  mkMapRow "ICD10" "I11x" "Hypertension"])
  = Ok [mkRegexRow "10" "Hypertension" "I10.*|I11..*"].
Proof. reflexivity. Qed.

(** C10. The rows of [df_regex_codes], and with them the regex rules the
    call issues, come in strictly ascending lexicographic order of their
    (code_type, category) pair: by code_type, then by category, each compared
    as Python compares strings. The pairs of the rows are exactly the pairs
    of code_type and category found among the entries without a hyphen, so
    the pairs and their order are the same for every reordering of the sheet
    rows. Inside a rule the expressions of the members are joined in row
    order. *)
Theorem pattern_rules_sorted
    (indata indata_code_var indata_code_type_var outdata xwhere : string)
    (sheet : list MapRow) (cur : Cursor) :
  exists rules,
    df_regex_codes (df_comor_codes sheet) = Ok rules /\
    (forall ct d,
       In (ct, d) (map (fun rule => (rx_code_type rule, rx_descr rule)) rules) <->
       exists e, In e (df_comor_codes sheet) /\ ~ has_char "-" (code_array e) /\
                 code_type e = ct /\ descr e = d) /\
    StronglySorted pair_lt
      (map (fun rule => (rx_code_type rule, rx_descr rule)) rules) /\
    StronglySorted key_lt (map rx_key rules) /\
    (forall sheet', Permutation sheet sheet' ->
       exists rules',
         df_regex_codes (df_comor_codes sheet') = Ok rules' /\
         map rx_key rules' = map rx_key rules) /\
    (forall rule, In rule rules ->
       rx_code_regex rule
       = Py.join "|" (map regex_text
                          (filter (fun e => key_eqb (key_of e) (rx_key rule))
                                  (patterns (df_comor_codes sheet))))) /\
    (forall rule, In rule rules ->
       exists parts,
         Forall2 (fun e part => code_regex e = Some part)
                 (filter (fun e => String.eqb (code_type e) (rx_code_type rule)
                                   && String.eqb (descr e) (rx_descr rule))
                         (patterns (df_comor_codes sheet)))
                 parts /\
         Joined "|" parts (rx_code_regex rule)) /\
    exists post,
      snd (icd_code_flags_snflk indata indata_code_var indata_code_type_var
                                outdata xwhere sheet cur)
      = (cur ++ [CreateTableLike outdata indata; AlterTableAddMapColumns outdata]
             ++ map (regexp_stmt indata indata_code_var indata_code_type_var
                                 outdata xwhere) rules
             ++ post)%list.
Proof.
  eexists. split; [apply df_regex_codes_ok|].
  split; [|split; [|split; [|split; [|split; [|split]]]]].
  - intros ct d. fold rx_key. rewrite regex_rows_keys, in_group_keys. split.
    + intros [e [He Hk]]. apply in_patterns in He. destruct He as [Hin [Hfree _]].
      unfold key_of in Hk. injection Hk as Hct Hd. exists e. auto.
    + intros [e [Hin [Hfree [Hct Hd]]]]. exists e.
      split; [now apply pattern_entry|]. unfold key_of. now rewrite Hct, Hd.
  - fold rx_key. rewrite regex_rows_keys.
    apply (sorted_impl key_lt pair_lt); [apply key_lt_pair_lt | apply group_keys_sorted].
  - rewrite regex_rows_keys. apply group_keys_sorted.
  - intros sheet' Hp. eexists. split; [apply df_regex_codes_ok|].
    rewrite !regex_rows_keys. symmetry. now apply group_keys_perm.
  - intros rule Hin. apply in_map_iff in Hin. destruct Hin as [[a b] [<- _]].
    reflexivity.
  - intros rule Hin. apply in_map_iff in Hin. destruct Hin as [[a b] [<- Hk]].
    destruct (group_members sheet (a, b) Hk) as [Hne Hmem].
    exists (map regex_text (group_of (df_comor_codes sheet) (a, b))). split.
    + apply (forall2_map_r (fun e part => code_regex e = Some part) regex_text
                           (group_of (df_comor_codes sheet) (a, b))).
      intros e He. unfold group_of in He. apply filter_In in He.
      destruct He as [He _]. apply in_patterns in He. destruct He as [_ [_ Hre]].
      unfold regex_text. now rewrite Hre.
    + simpl. unfold Py.join. apply joined_concat.
      intros Hnil. apply map_eq_nil in Hnil. contradiction.
  - eexists. rewrite icd_code_flags_snflk_ok. reflexivity.
Qed.

(** The key that comes first in the sheet is not the first rule. *)
Example rules_not_in_sheet_order :
  df_regex_codes (df_comor_codes [mkMapRow "ICD-9" "250.x" "Diabetes";
                                  mkMapRow "ICD10" "I10" "Hypertension";
                                  mkMapRow "ICD-9" "401" "Hypertension";
                                  mkMapRow "ICD10" "E11" "Diabetes";
                                  mkMapRow "ICD-9" "249" "Diabetes"])
  = Ok [mkRegexRow "10" "Diabetes" "E11.*";
        mkRegexRow "10" "Hypertension" "I10.*";
        mkRegexRow "9" "Diabetes" "250...*|249.*";
        mkRegexRow "9" "Hypertension" "401.*"].
Proof. reflexivity. Qed.

(** ** Rows *)

Lemma is_icd_iff (r : MapRow) :
  is_icd r = true <-> substr "ICD" (Py.upper (map_code_type r)).
Proof. unfold is_icd. apply contains_iff. Qed.

Lemma in_row_entries (r : MapRow) (e : Entry) :
  In e (df_comor_codes [r]) <->
  is_icd r = true /\ exists a, In a (segments r) /\ e = entry_of r a.
Proof.
  rewrite in_df_comor_codes. split.
  - intros [r' [a [[<-|[]] [Hicd [Ha He]]]]]. split; [exact Hicd|]. now exists a.
  - intros [Hicd [a [Ha He]]]. exists r, a. simpl. auto.
Qed.

(** C6. Every entry of a sheet row carries the code type of the row,
    normalised once for the row: it is ["9"] when the row's code_type text
    contains ["9"]; otherwise ["10"] when the text contains ["10"];
    otherwise the text unchanged. A text with both ["9"] and ["10"] gives
    ["9"]. *)
Theorem code_type_normalized (s1 s2 : list MapRow) (r : MapRow) (e : Entry) :
  In e (df_comor_codes [r]) ->
  In e (df_comor_codes (s1 ++ r :: s2)) /\
  descr e = map_descr r /\ code_orig e = map_code r /\
  (substr "9" (map_code_type r) -> code_type e = "9") /\
  (~ substr "9" (map_code_type r) -> substr "10" (map_code_type r) ->
   code_type e = "10") /\
  (~ substr "9" (map_code_type r) -> ~ substr "10" (map_code_type r) ->
   code_type e = map_code_type r).
Proof.
  intros Hin. split.
  - rewrite df_comor_codes_app. apply in_or_app. right.
    change (r :: s2) with ([r] ++ s2)%list.
    rewrite df_comor_codes_app. apply in_or_app. now left.
  - apply in_row_entries in Hin. destruct Hin as [_ [a [_ ->]]].
    split; [reflexivity|]. split; [reflexivity|].
    change (code_type (entry_of r a)) with (icd_type (map_code_type r)).
    unfold icd_type. rewrite <- !contains_iff.
    destruct (Py.contains "9" (map_code_type r));
      destruct (Py.contains "10" (map_code_type r)); intuition congruence.
Qed.

Lemma code_type_normalized_witness :
  let r := mkMapRow "ICD-10 (ICD-9)" "E11" "Diabetes" in
  let e := mkEntry "9" "Diabetes" "E11" "E11" "E11" None (Some "E11.*") in
  In e (df_comor_codes [r]) /\
  substr "10" (map_code_type r) /\ substr "9" (map_code_type r) /\
  code_type e = "9".
Proof.
  intros r e.
  assert (In e (df_comor_codes [r])) as Hin by (vm_compute; tauto).
  assert (substr "9" (map_code_type r)) as H9 by (apply contains_iff; reflexivity).
  split; [exact Hin|]. split; [apply contains_iff; reflexivity|].
  split; [exact H9|].
  exact (proj1 (proj2 (proj2 (proj2 (code_type_normalized [] [] r e Hin)))) H9).
Defined.

(** C7. A sheet row is either retained or dropped, by its code_type text
    alone. When the text holds the letters I, C, D one after the other, each
    in upper or in lower case, the entries of the row stand in the frame
    between those of the rows before and after it, and there is at least
    one. When it does not, the row has no entry, the frame and the whole
    call are those of the sheet without the row, and the call returns
    normally. *)
Theorem icd_rows_only
    (indata indata_code_var indata_code_type_var outdata xwhere : string)
    (s1 s2 : list MapRow) (r : MapRow) (cur : Cursor) :
  (contains_icd (map_code_type r) /\
   df_comor_codes (s1 ++ r :: s2)
   = (df_comor_codes s1 ++ df_comor_codes [r] ++ df_comor_codes s2)%list /\
   df_comor_codes [r] <> [] /\
   Forall (fun e => code_orig e = map_code r /\ descr e = map_descr r)
          (df_comor_codes [r]))
  \/
  (~ contains_icd (map_code_type r) /\
   df_comor_codes [r] = [] /\
   df_comor_codes (s1 ++ r :: s2) = df_comor_codes (s1 ++ s2) /\
   icd_code_flags_snflk indata indata_code_var indata_code_type_var outdata xwhere
                        (s1 ++ r :: s2) cur
   = icd_code_flags_snflk indata indata_code_var indata_code_type_var outdata xwhere
                          (s1 ++ s2) cur /\
   exists frames,
     fst (icd_code_flags_snflk indata indata_code_var indata_code_type_var
                               outdata xwhere (s1 ++ r :: s2) cur) = Ok frames).
Proof.
  assert (df_comor_codes (s1 ++ r :: s2)
          = (df_comor_codes s1 ++ df_comor_codes [r] ++ df_comor_codes s2)%list) as Happ.
  { change (r :: s2) with ([r] ++ s2)%list. now rewrite !df_comor_codes_app. }
  destruct (is_icd r) eqn:Hicd.
  - left. split; [now apply is_icd_letters|]. split; [exact Happ|].
    rewrite df_comor_codes_one. unfold row_entries. rewrite Hicd. split.
    + unfold segments. pose proof (split_not_nil "," (Py.replace " " "" (map_code r))).
      destruct (Py.split "," (Py.replace " " "" (map_code r))); [congruence | discriminate].
    + apply Forall_forall. intros e He. apply in_map_iff in He.
      destruct He as [a [<- _]]. split; reflexivity.
  - right.
    assert (df_comor_codes [r] = []) as Hnil.
    { rewrite df_comor_codes_one. unfold row_entries. now rewrite Hicd. }
    assert (df_comor_codes (s1 ++ r :: s2) = df_comor_codes (s1 ++ s2)) as Heq.
    { rewrite Happ, Hnil. now rewrite df_comor_codes_app. }
    split; [rewrite <- is_icd_letters; congruence|]. split; [exact Hnil|].
    split; [exact Heq|]. split.
    + rewrite !icd_code_flags_snflk_ok. now rewrite Heq.
    + eexists. rewrite icd_code_flags_snflk_ok. reflexivity.
Qed.

(** Example 3 of the specification, and a row in lower case. *)
Example cpt_row_excluded :
  df_comor_codes [mkMapRow "CPT" "99213" "Visit"; mkMapRow "icd-9" "401" "Hypertension"]
  = [mkEntry "9" "Hypertension" "401" "401" "401" None (Some "401.*")].
Proof. reflexivity. Qed.

(** ** Cells *)

(** C8 as stated fails: a tab in the code cell is not removed. *)
Lemma tab_not_stripped :
  let tab := "009"%char in
  let cell := "250.1," ++ String tab "250.2" in
  map code (df_comor_codes [mkMapRow "ICD-9" cell "Diabetes"]) = [cell; cell] /\
  map code_array (df_comor_codes [mkMapRow "ICD-9" cell "Diabetes"])
  = ["250.1"; String tab "250.2"] /\
  has_char tab (String tab "250.2").
Proof.
  intros tab cell. split; [reflexivity|]. split; [reflexivity|]. now left.
Qed.

(** C8, amended. For every retained row, the cell [code] is the raw cell
    with every space character [' '] removed, wherever it stands, and every
    other character (a tab as well) kept in order; the entries of the row
    are the comma-delimited segments of that cell, in order: joined with
    commas they give the cell back and none holds a comma, so a doubled
    comma leaves an empty segment. The entry of an empty segment has no
    [code_range] and the regex [.*]. *)
Theorem code_cell_segments (r : MapRow) :
  substr "ICD" (Py.upper (map_code_type r)) ->
  exists stripped segs,
    list_ascii_of_string stripped
    = filter (fun c => negb (Ascii.eqb c " ")) (list_ascii_of_string (map_code r)) /\
    Forall (fun e => code e = stripped /\ code_orig e = map_code r)
           (df_comor_codes [r]) /\
    map code_array (df_comor_codes [r]) = segs /\
    Py.join "," segs = stripped /\
    Forall (fun seg => ~ has_char "," seg) segs /\
    segs <> [] /\
    (forall e, In e (df_comor_codes [r]) -> code_array e = "" ->
               code_range e = None /\ code_regex e = Some ".*").
Proof.
  intros Hicd. apply is_icd_iff in Hicd.
  exists (Py.replace " " "" (map_code r)), (segments r).
  assert (df_comor_codes [r] = map (entry_of r) (segments r)) as Hdf.
  { rewrite df_comor_codes_one. unfold row_entries. now rewrite Hicd. }
  split; [apply replace_delete|]. split; [|split; [|split; [|split; [|split]]]].
  - rewrite Hdf. apply Forall_forall. intros e He. apply in_map_iff in He.
    destruct He as [a [<- _]]. split; reflexivity.
  - rewrite Hdf, map_map. simpl. apply map_id.
  - apply join_split.
  - apply split_parts_free.
  - apply split_not_nil.
  - intros e He Hempty. rewrite Hdf in He. apply in_map_iff in He.
    destruct He as [a [<- _]]. simpl in Hempty. subst a. split; reflexivity.
Qed.

Lemma code_cell_segments_witness :
  let r := mkMapRow "ICD10" "I10,, I1 1x" "Hypertension" in
  substr "ICD" (Py.upper (map_code_type r)) /\
  map code_array (df_comor_codes [r]) = ["I10"; ""; "I11x"] /\
  exists stripped segs,
    map code_array (df_comor_codes [r]) = segs /\
    Py.join "," segs = stripped /\
    (forall e, In e (df_comor_codes [r]) -> code_array e = "" ->
               code_range e = None /\ code_regex e = Some ".*").
Proof.
  intros r.
  assert (substr "ICD" (Py.upper (map_code_type r))) as Hicd
    by (apply contains_iff; reflexivity).
  split; [exact Hicd|]. split; [reflexivity|].
  destruct (code_cell_segments r Hicd) as [stripped [segs [_ [_ [H1 [H2 [_ [_ H3]]]]]]]].
  exists stripped, segs. auto.
Defined.

(** * Further properties of the function *)

(** ** More on strings *)

Section MoreStringFacts.

Lemma has_char_append (c : ascii) (a b : string) :
  has_char c (a ++ b) <-> has_char c a \/ has_char c b.
Proof. unfold has_char. rewrite list_ascii_append. apply in_app_iff. Qed.

Lemma has_char_concat (c : ascii) (sep : string) (parts : list string) :
  has_char c (String.concat sep parts) ->
  has_char c sep \/ exists part, In part parts /\ has_char c part.
Proof.
  induction parts as [|p ps IH]; simpl.
  - intros [].
  - destruct ps as [|q ps].
    + intros H. right. exists p. auto.
    + rewrite !has_char_append. intros [H|[H|H]].
      * right. exists p. auto.
      * now left.
      * destruct (IH H) as [Hs|[part [Hin Hp]]]; [now left|].
        right. exists part. split; [now right | exact Hp].
Qed.

Lemma replace_delete_free (old : ascii) (s : string) :
  ~ has_char old (Py.replace old "" s).
Proof.
  unfold has_char. rewrite replace_delete. intros H.
  apply filter_In in H. destruct H as [_ H].
  now rewrite Ascii.eqb_refl in H.
Qed.

Lemma replace_delete_has (old c : ascii) (s : string) :
  has_char c (Py.replace old "" s) -> has_char c s.
Proof.
  unfold has_char. rewrite replace_delete. intros H.
  now apply filter_In in H.
Qed.

Lemma replace_char_has (old new c : ascii) (s : string) :
  has_char c (Py.replace old (String new "") s) -> c = new \/ has_char c s.
Proof.
  unfold has_char. induction s as [|x s IH]; simpl; [tauto|].
  destruct (Ascii.eqb x old); simpl; intuition.
Qed.

Lemma count_char_replace_delete (old c : ascii) (s : string) :
  c <> old -> count_char c (Py.replace old "" s) = count_char c s.
Proof.
  unfold count_char. intros Hne. induction s as [|x s IH]; simpl; [reflexivity|].
  destruct (Ascii.eqb_spec x old) as [->|Hx]; simpl.
  - rewrite IH. destruct (ascii_dec old c); [congruence | reflexivity].
  - now rewrite IH.
Qed.

Lemma split_length (sep : ascii) (s : string) :
  List.length (Py.split sep s) = S (count_char sep s).
Proof.
  unfold count_char. induction s as [|c s IH]; simpl; [reflexivity|].
  destruct (Ascii.eqb_spec c sep) as [->|Hne].
  - simpl. rewrite IH. destruct (ascii_dec sep sep); [reflexivity | congruence].
  - destruct (ascii_dec c sep); [congruence|].
    pose proof (split_not_nil sep s).
    destruct (Py.split sep s); [congruence | exact IH].
Qed.

(** A joined list of parts that all end with [suffix] ends with it. *)
Lemma concat_ends_with (sep suffix : string) (parts : list string) :
  parts <> [] -> Forall (ends_with suffix) parts ->
  ends_with suffix (String.concat sep parts).
Proof.
  induction parts as [|p ps IH]; [congruence|]. intros _ Hall.
  inversion Hall as [|? ? Hp Hps]; subst. simpl.
  destruct ps as [|q ps]; [exact Hp|].
  destruct IH as [body Hb]; [discriminate | exact Hps|].
  exists (p ++ sep ++ body). rewrite Hb. now rewrite !append_assoc.
Qed.

End MoreStringFacts.

(** ** More on lists *)

Section MoreListFacts.

Lemma perm_filter_split {A : Type} (p q : A -> bool) (l : list A) :
  (forall a, In a l -> q a = negb (p a)) ->
  Permutation (filter p l ++ filter q l) l.
Proof.
  induction l as [|a l IH]; intros H; simpl; [constructor|].
  assert (Permutation (filter p l ++ filter q l) l) as IH'.
  { apply IH. intros x Hx. apply H. now right. }
  rewrite (H a (or_introl eq_refl)). destruct (p a); simpl.
  - now constructor.
  - apply Permutation_sym, Permutation_cons_app, Permutation_sym, IH'.
Qed.

Lemma perm_filter {A : Type} (p : A -> bool) (l1 l2 : list A) :
  Permutation l1 l2 -> Permutation (filter p l1) (filter p l2).
Proof.
  induction 1 as [|a l1 l2 _ IH|a b l|l1 l2 l3 _ IH1 _ IH2]; simpl.
  - constructor.
  - destruct (p a); [now constructor | exact IH].
  - destruct (p a), (p b); try apply Permutation_refl. constructor.
  - eapply Permutation_trans; eassumption.
Qed.

Lemma filter_of_filter {A : Type} (f g : A -> bool) (l : list A) :
  (forall a, In a l -> f a = true -> g a = true) ->
  filter f (filter g l) = filter f l.
Proof.
  induction l as [|a l IH]; intros H; simpl; [reflexivity|].
  assert (filter f (filter g l) = filter f l) as IH'.
  { apply IH. intros x Hx. apply H. now right. }
  destruct (g a) eqn:Hg; simpl.
  - now rewrite IH'.
  - destruct (f a) eqn:Hf; [|exact IH'].
    rewrite (H a (or_introl eq_refl) Hf) in Hg. discriminate.
Qed.

(** The groups of a list of distinct keys that cover a frame hold every
    row of the frame once. *)
Lemma concat_groups_perm (ks : list key) (l : list Entry) :
  NoDup ks -> (forall e, In e l -> In (key_of e) ks) ->
  Permutation (concat (map (fun k => filter (fun e => key_eqb (key_of e) k) l) ks)) l.
Proof.
  revert l. induction ks as [|k ks IH]; intros l Hnd Hcov; simpl.
  - destruct l as [|e l]; [constructor|]. destruct (Hcov e (or_introl eq_refl)).
  - inversion Hnd as [|? ? Hk Hnd']; subst.
    set (rest := filter (fun e => negb (key_eqb (key_of e) k)) l).
    assert (map (fun k' => filter (fun e => key_eqb (key_of e) k') l) ks
            = map (fun k' => filter (fun e => key_eqb (key_of e) k') rest) ks) as Hmap.
    { apply map_ext_in. intros k' Hk'. symmetry. apply filter_of_filter.
      intros e _ He. apply key_eqb_eq in He. subst k'.
      destruct (key_eqb (key_of e) k) eqn:E; [|reflexivity].
      apply key_eqb_eq in E. subst k. contradiction. }
    rewrite Hmap.
    eapply Permutation_trans.
    + apply Permutation_app_head. apply (IH rest Hnd').
      intros e He. unfold rest in He. apply filter_In in He. destruct He as [He Hne].
      simpl in Hne. destruct (Hcov e He) as [Heq|Hin]; [|exact Hin].
      rewrite <- Heq, key_eqb_refl in Hne. discriminate.
    + apply perm_filter_split. reflexivity.
Qed.

Lemma df_comor_codes_flat_map (sheet : list MapRow) :
  df_comor_codes sheet = flat_map row_entries sheet.
Proof.
  induction sheet as [|r sheet IH]; [reflexivity|].
  rewrite df_comor_codes_cons, IH. reflexivity.
Qed.

End MoreListFacts.

(** ** The statements of a call *)

(** X1. On a cursor that accepts every statement, which is all [execute]
    models, no step of the function's own raises: the join of every group
    and every list index of the two loops succeed. The call then returns the
    exploded frame and the grouped frame, leaves the statements already on
    the cursor in place, and hands to it, in this order: the CREATE TABLE,
    the ALTER TABLE, one regex INSERT per row of the grouped frame, one range
    INSERT per entry with a range; two statements more than it has rules. *)
Theorem call_statements
    (indata indata_code_var indata_code_type_var outdata xwhere : string)
    (sheet : list MapRow) (cur : Cursor) :
  exists rules,
    df_regex_codes (df_comor_codes sheet) = Ok rules /\
    icd_code_flags_snflk indata indata_code_var indata_code_type_var outdata xwhere
                         sheet cur
    = (Ok (df_comor_codes sheet, rules),
       cur ++ CreateTableLike outdata indata
           :: AlterTableAddMapColumns outdata
           :: map (regexp_stmt indata indata_code_var indata_code_type_var
                               outdata xwhere) rules
           ++ map (between_stmt indata indata_code_var indata_code_type_var
                                outdata xwhere)
                  (ranges (df_comor_codes sheet)))%list /\
    List.length (issued (icd_code_flags_snflk indata indata_code_var
                           indata_code_type_var outdata xwhere sheet))
    = 2 + List.length rules + List.length (ranges (df_comor_codes sheet)).
Proof.
  eexists. split; [apply df_regex_codes_ok|]. split.
  - rewrite icd_code_flags_snflk_ok. reflexivity.
  - unfold issued. rewrite icd_code_flags_snflk_ok. simpl.
    rewrite length_app, !length_map. lia.
Qed.

(** X2. A sheet without any ICD row (an empty sheet as well) gives two empty
    frames, and the call still creates and alters the output table: the two
    DDL statements are all it issues. *)
Theorem no_icd_rows_only_ddl
    (indata indata_code_var indata_code_type_var outdata xwhere : string)
    (sheet : list MapRow) (cur : Cursor) :
  Forall (fun r => ~ substr "ICD" (Py.upper (map_code_type r))) sheet ->
  icd_code_flags_snflk indata indata_code_var indata_code_type_var outdata xwhere
                       sheet cur
  = (Ok ([], []),
     cur ++ [CreateTableLike outdata indata; AlterTableAddMapColumns outdata])%list.
Proof.
  intros Hall.
  assert (df_comor_codes sheet = []) as Hdf.
  { induction Hall as [|r sheet Hr _ IH]; [reflexivity|].
    rewrite df_comor_codes_cons, IH. unfold row_entries.
    destruct (is_icd r) eqn:Hicd; [|reflexivity].
    apply is_icd_iff in Hicd. contradiction. }
  rewrite icd_code_flags_snflk_ok, Hdf. reflexivity.
Qed.

Lemma no_icd_rows_only_ddl_witness :
  let sheet := [mkMapRow "CPT" "99213" "Visit"; mkMapRow "HCPCS" "G0008" "Vaccine"] in
  Forall (fun r => ~ substr "ICD" (Py.upper (map_code_type r))) sheet /\
  icd_code_flags_snflk "IN" "dx" "icd_type" "OUT" "" sheet []
  = (Ok ([], []), [CreateTableLike "OUT" "IN"; AlterTableAddMapColumns "OUT"]).
Proof.
  intros sheet.
  assert (Forall (fun r => ~ substr "ICD" (Py.upper (map_code_type r))) sheet) as Hall.
  { repeat constructor; intros H; apply contains_iff in H; discriminate. }
  split; [exact Hall|].
  exact (no_icd_rows_only_ddl "IN" "dx" "icd_type" "OUT" "" sheet [] Hall).
Defined.

(** X3. On the way to the rules no entry is lost and none is used twice: the
    members of all the groups, followed by the entries of the range loop,
    are a rearrangement of the exploded frame. *)
Theorem entries_accounted (sheet : list MapRow) :
  let df := df_comor_codes sheet in
  Permutation (concat (map snd (groupby (patterns df))) ++ ranges df)%list df /\
  List.length (concat (map snd (groupby (patterns df)))) + List.length (ranges df)
  = List.length df.
Proof.
  intros df.
  assert (Permutation (concat (map snd (groupby (patterns df))) ++ ranges df)%list df)
    as Hperm.
  { eapply Permutation_trans.
    - apply Permutation_app_tail. unfold groupby. rewrite map_map. simpl.
      apply concat_groups_perm.
      + apply sorted_NoDup, group_keys_sorted.
      + intros e He. apply in_group_keys. now exists e.
    - unfold patterns, ranges. apply perm_filter_split.
      intros e He. apply in_df_comor_codes in He.
      destruct He as [r [a [_ [_ [_ ->]]]]].
      destruct (has_char_dec "-" a) as [H|H].
      + destruct (entry_of_range r a H) as [-> ->]. reflexivity.
      + destruct (entry_of_pattern r a H) as [-> ->]. reflexivity. }
  split; [exact Hperm|].
  rewrite <- length_app. now apply Permutation_length.
Qed.

(** ** The characters of entries and rules *)

Lemma has_char_concat_part (c : ascii) (sep : string) (parts : list string)
      (part : string) :
  In part parts -> has_char c part -> has_char c (String.concat sep parts).
Proof.
  induction parts as [|p ps IH]; simpl; [tauto|]. intros Hin Hc.
  destruct ps as [|q ps].
  - destruct Hin as [->|[]]. exact Hc.
  - rewrite !has_char_append. destruct Hin as [->|Hin]; [now left|].
    right. right. now apply IH.
Qed.

Lemma split_part_has (c sep : ascii) (s part : string) :
  In part (Py.split sep s) -> has_char c part -> has_char c s.
Proof.
  intros Hin Hc. rewrite <- (join_split sep s). unfold Py.join.
  eapply has_char_concat_part; eassumption.
Qed.

Lemma has_char_repeat (c fill : ascii) (n : nat) :
  has_char c (Py.repeat_char fill n) -> c = fill.
Proof.
  unfold has_char. induction n as [|n IH]; simpl; [tauto|].
  intros [H|H]; [now symmetry | now apply IH].
Qed.

(** X4. A retained row gives one entry more than its raw code cell has
    commas: every comma starts a new entry, also a doubled or a trailing
    one, and removing the spaces changes nothing to that. *)
Theorem row_entry_count (r : MapRow) :
  substr "ICD" (Py.upper (map_code_type r)) ->
  List.length (df_comor_codes [r]) = S (count_char "," (map_code r)).
Proof.
  intros Hicd. apply is_icd_iff in Hicd.
  rewrite df_comor_codes_one. unfold row_entries, segments. rewrite Hicd.
  rewrite length_map, split_length. f_equal.
  apply count_char_replace_delete. discriminate.
Qed.

Lemma row_entry_count_witness :
  let r := mkMapRow "ICD-9" "250.x, 250.1-250.3,," "Diabetes" in
  substr "ICD" (Py.upper (map_code_type r)) /\
  List.length (df_comor_codes [r]) = 4.
Proof.
  intros r.
  assert (substr "ICD" (Py.upper (map_code_type r))) as Hicd
    by (apply contains_iff; reflexivity).
  split; [exact Hicd|]. exact (row_entry_count r Hicd).
Defined.

Lemma segment_free (r : MapRow) (a : string) :
  In a (segments r) -> ~ has_char "," a /\ ~ has_char " " a.
Proof.
  unfold segments. intros Ha. split.
  - pose proof (split_parts_free "," (Py.replace " " "" (map_code r))) as Hfree.
    rewrite Forall_forall in Hfree. now apply Hfree.
  - intros Hc. apply (replace_delete_free " " (map_code r)).
    eapply split_part_has; eassumption.
Qed.

Lemma raw_free (sheet : list MapRow) (e : Entry) :
  In e (df_comor_codes sheet) ->
  ~ has_char "," (code_array e) /\ ~ has_char " " (code_array e).
Proof.
  intros Hin. apply in_df_comor_codes in Hin.
  destruct Hin as [r [a [_ [_ [Ha ->]]]]]. now apply (segment_free r).
Qed.

(** X5. No entry of the exploded frame has a comma or a space in its raw
    string [code_array], and none has a space in its cell [code]. *)
Theorem entry_raw_charset (sheet : list MapRow) (e : Entry) :
  In e (df_comor_codes sheet) ->
  ~ has_char "," (code_array e) /\
  ~ has_char " " (code_array e) /\
  ~ has_char " " (code e).
Proof.
  intros Hin. destruct (raw_free sheet e Hin) as [Hcomma Hspace].
  split; [exact Hcomma|]. split; [exact Hspace|].
  apply in_df_comor_codes in Hin.
  destruct Hin as [r [a [_ [_ [_ ->]]]]]. simpl. apply replace_delete_free.
Qed.

Lemma entry_raw_charset_witness :
  let sheet := [mkMapRow "ICD-9" "250.x , 250.1 - 250.3" "Diabetes"] in
  let e := mkEntry "9" "Diabetes" "250.x,250.1-250.3" "250.x , 250.1 - 250.3"
                   "250.1-250.3" (Some "250.1-250.3") None in
  In e (df_comor_codes sheet) /\
  ~ has_char "," (code_array e) /\
  ~ has_char " " (code_array e) /\
  ~ has_char " " (code e).
Proof.
  intros sheet e.
  assert (In e (df_comor_codes sheet)) as Hin by (vm_compute; tauto).
  split; [exact Hin|]. exact (entry_raw_charset sheet e Hin).
Defined.

(** X6. Every expression of the grouped frame ends with [.*] and holds no
    space, no comma, no hyphen and no lowercase [x]. *)
Theorem regex_expression_shape (sheet : list MapRow) :
  exists rules,
    df_regex_codes (df_comor_codes sheet) = Ok rules /\
    Forall (fun rule =>
              ends_with ".*" (rx_code_regex rule) /\
              ~ has_char " " (rx_code_regex rule) /\
              ~ has_char "," (rx_code_regex rule) /\
              ~ has_char "-" (rx_code_regex rule) /\
              ~ has_char "x" (rx_code_regex rule)) rules.
Proof.
  eexists. split; [apply df_regex_codes_ok|].
  apply Forall_forall. intros rule Hrule. apply in_map_iff in Hrule.
  destruct Hrule as [k [<- Hk]].
  destruct (group_members sheet k Hk) as [Hne Hmem]. simpl.
  assert (forall c, c <> "."%char -> c <> "*"%char -> c <> "|"%char ->
            has_char c (Py.join "|" (map regex_text (group_of (df_comor_codes sheet) k))) ->
            exists e, In e (df_comor_codes sheet) /\ ~ has_char "-" (code_array e) /\
                      has_char c (Py.replace "x" "." (code_array e))) as Hchar.
  { intros c Hdot Hstar Hbar Hc. unfold Py.join in Hc.
    apply has_char_concat in Hc. destruct Hc as [Hc|[part [Hpart Hc]]].
    - destruct Hc as [Hc|[]]. congruence.
    - apply in_map_iff in Hpart. destruct Hpart as [e [<- He]].
      destruct (Hmem e He) as [Hin [Hfree Hre]]. rewrite Hre in Hc.
      apply has_char_append in Hc. destruct Hc as [Hc|Hc].
      + exists e. auto.
      + destruct Hc as [Hc|[Hc|[]]]; congruence. }
  split; [|split; [|split; [|split]]].
  - unfold Py.join. apply concat_ends_with.
    + destruct (group_of (df_comor_codes sheet) k); [congruence | discriminate].
    + apply Forall_forall. intros part Hpart. apply in_map_iff in Hpart.
      destruct Hpart as [e [<- He]]. destruct (Hmem e He) as [_ [_ ->]].
      now exists (Py.replace "x" "." (code_array e)).
  - intros Hc. destruct (Hchar " "%char) as [e [Hin [_ He]]];
      try discriminate; [exact Hc|].
    apply replace_char_has in He. destruct He as [He|He]; [discriminate|].
    exact (proj2 (raw_free sheet e Hin) He).
  - intros Hc. destruct (Hchar ","%char) as [e [Hin [_ He]]];
      try discriminate; [exact Hc|].
    apply replace_char_has in He. destruct He as [He|He]; [discriminate|].
    exact (proj1 (raw_free sheet e Hin) He).
  - intros Hc. destruct (Hchar "-"%char) as [e [Hin [Hfree He]]];
      try discriminate; [exact Hc|].
    apply replace_char_has in He. destruct He as [He|He]; [discriminate|].
    contradiction.
  - intros Hc. destruct (Hchar "x"%char) as [e [Hin [_ He]]];
      try discriminate; [exact Hc|].
    apply (replace_char_free "x" "." (code_array e)); [discriminate | exact He].
Qed.

(** ** Code types *)

(** X7. The code type of every entry of the exploded frame is ["9"], or
    ["10"], or a text that holds neither ["9"] nor ["10"] and, upper-cased,
    holds ["ICD"]: the sheet text passes through only in the last case. *)
Theorem code_type_values (sheet : list MapRow) (e : Entry) :
  In e (df_comor_codes sheet) ->
  code_type e = "9" \/ code_type e = "10" \/
  (~ substr "9" (code_type e) /\ ~ substr "10" (code_type e) /\
   substr "ICD" (Py.upper (code_type e)) /\
   exists r, In r sheet /\ map_code_type r = code_type e).
Proof.
  intros Hin. apply in_df_comor_codes in Hin.
  destruct Hin as [r [a [Hr [Hicd [_ ->]]]]].
  change (code_type (entry_of r a)) with (icd_type (map_code_type r)).
  unfold icd_type.
  destruct (Py.contains "9" (map_code_type r)) eqn:H9; [now left|].
  destruct (Py.contains "10" (map_code_type r)) eqn:H10; [right; now left|].
  right. right. rewrite <- !contains_iff, H9, H10.
  split; [discriminate|]. split; [discriminate|].
  split; [exact Hicd|]. now exists r.
Qed.

Lemma code_type_values_witness :
  let sheet := [mkMapRow "ICD-O" "8000" "Neoplasm"] in
  let e := mkEntry "ICD-O" "Neoplasm" "8000" "8000" "8000" None (Some "8000.*") in
  In e (df_comor_codes sheet) /\
  (code_type e = "9" \/ code_type e = "10" \/
   (~ substr "9" (code_type e) /\ ~ substr "10" (code_type e) /\
    substr "ICD" (Py.upper (code_type e)) /\
    exists r, In r sheet /\ map_code_type r = code_type e)).
Proof.
  intros sheet e.
  assert (In e (df_comor_codes sheet)) as Hin by (vm_compute; tauto).
  split; [exact Hin|]. exact (code_type_values sheet e Hin).
Defined.

(** X8. A row is retained exactly when its code_type text holds one of the
    eight spellings of ICD in upper and lower case letters: ICD, ICd, IcD,
    Icd, iCD, iCd, icD, icd. *)
Theorem icd_any_case (r : MapRow) :
  is_icd r = true <->
  exists m, In m ["ICD"; "ICd"; "IcD"; "Icd"; "iCD"; "iCd"; "icD"; "icd"] /\
            substr m (map_code_type r).
Proof.
  rewrite is_icd_letters. unfold contains_icd, icd_letters, substr. split.
  - intros [a [m [b [Hct [c1 [c2 [c3 [-> [H1 [H2 H3]]]]]]]]]].
    exists (String c1 (String c2 (String c3 ""))). split; [|now exists a, b].
    destruct H1 as [-> | ->], H2 as [-> | ->], H3 as [-> | ->]; simpl; tauto.
  - intros [m [Hm [a [b Hct]]]]. exists a, m, b. split; [exact Hct|].
    simpl in Hm.
    repeat (destruct Hm as [<- | Hm];
            [do 3 eexists; split; [reflexivity | tauto] |]).
    destruct Hm.
Qed.

(** Rows in lower and in mixed case are retained; a dotted spelling is not. *)
Example icd_case_rows :
  map is_icd [mkMapRow "icd9" "" ""; mkMapRow "Icd-10-CM" "" "";
              mkMapRow "I.C.D. 9" "" ""; mkMapRow "CPT" "" ""]
  = [true; true; false; false].
Proof. reflexivity. Qed.

(** ** The index into the parts of a range *)

(** X9. Line 185 cannot fail on a string: [split] always has a first part,
    the text before the first hyphen (the whole string when it has none). Line 187 raises [IndexError] exactly
    on a string without a hyphen; on a string with one it gives a bound of
    at least 7 characters. The range loop is fed the cells with a hyphen
    only, which is what keeps the index in bounds. *)
Theorem range_index_guard (raw : string) :
  (exists lo rest, range_low (Some raw) = Ok lo /\
                   ~ has_char "-" lo /\ raw = lo ++ rest /\
                   (rest = "" \/ exists t, rest = "-" ++ t)) /\
  (range_high (Some raw) = Raise IndexError <-> ~ has_char "-" raw) /\
  (has_char "-" raw ->
   exists hi, range_high (Some raw) = Ok hi /\ 7 <= String.length hi).
Proof.
  split; [|split].
  - destruct (split_first "-" raw) as [lo [Hlo [[Hraw Hs]|[t [Hraw Hs]]]]].
    + exists lo, "". unfold range_low. simpl. rewrite Hs. simpl.
      rewrite append_nil_r. auto.
    + exists lo, (String "-" t). unfold range_low. simpl. rewrite Hs. simpl.
      repeat split; auto. right. now exists t.
  - split.
    + intros Hraise Hh. rewrite (range_high_ok raw Hh) in Hraise. discriminate.
    + intros Hfree. unfold range_high. simpl.
      now rewrite (split_free "-" raw Hfree).
  - intros Hh. eexists. split; [apply (range_high_ok raw Hh)|].
    rewrite ljust_length. lia.
Qed.

(** ** Sheets put together *)

(** X10. Stacking two sheets stacks their frames: the exploded frame of
    [s1 ++ s2] is the frame of [s1] followed by the frame of [s2], and the
    range statements of the stacked sheet are those of [s1] followed by
    those of [s2]. The regex rules are regrouped: the keys of the stacked
    sheet are the keys of either sheet. *)
Theorem stacked_sheets
    (indata indata_code_var indata_code_type_var outdata xwhere : string)
    (s1 s2 : list MapRow) :
  df_comor_codes (s1 ++ s2) = (df_comor_codes s1 ++ df_comor_codes s2)%list /\
  map (between_stmt indata indata_code_var indata_code_type_var outdata xwhere)
      (ranges (df_comor_codes (s1 ++ s2)))
  = (map (between_stmt indata indata_code_var indata_code_type_var outdata xwhere)
         (ranges (df_comor_codes s1))
     ++ map (between_stmt indata indata_code_var indata_code_type_var outdata xwhere)
            (ranges (df_comor_codes s2)))%list /\
  exists rules1 rules2 rules,
    df_regex_codes (df_comor_codes s1) = Ok rules1 /\
    df_regex_codes (df_comor_codes s2) = Ok rules2 /\
    df_regex_codes (df_comor_codes (s1 ++ s2)) = Ok rules /\
    forall k, In k (map rx_key rules) <->
              In k (map rx_key rules1) \/ In k (map rx_key rules2).
Proof.
  split; [apply df_comor_codes_app|]. split.
  - rewrite df_comor_codes_app. unfold ranges. now rewrite filter_app, map_app.
  - eexists. eexists. eexists.
    split; [apply df_regex_codes_ok|]. split; [apply df_regex_codes_ok|].
    split; [apply df_regex_codes_ok|].
    intros k. rewrite !regex_rows_keys, !in_group_keys.
    rewrite df_comor_codes_app. unfold patterns. rewrite filter_app. split.
    + intros [e [He Hk]]. apply in_app_iff in He.
      destruct He as [He|He]; [left | right]; now exists e.
    + intros [[e [He Hk]]|[e [He Hk]]]; exists e; (split; [|exact Hk]);
        apply in_app_iff; auto.
Qed.

(** ** The bounds that reach the warehouse *)

(** X11. Whatever the sheet, every range statement the call issues is for a
    cell that holds a hyphen; its low bound is the text of the cell before
    the first hyphen, and neither bound holds a hyphen; its high bound has
    at least 7 characters. *)
Theorem range_statement_bounds
    (indata indata_code_var indata_code_type_var outdata xwhere : string)
    (sheet : list MapRow)
    (o c ct d i v lo hi tv xw : string) :
  In (InsertBetween o c ct d i v lo hi tv xw)
     (issued (icd_code_flags_snflk indata indata_code_var indata_code_type_var
                                   outdata xwhere sheet)) ->
  (exists rest, c = lo ++ "-" ++ rest) /\
  ~ has_char "-" lo /\ ~ has_char "-" hi /\
  7 <= String.length hi /\
  exists e, In e (df_comor_codes sheet) /\ code_array e = c /\
            code_type e = ct /\ descr e = d.
Proof.
  unfold issued. rewrite icd_code_flags_snflk_ok. simpl.
  intros [H|[H|H]]; try discriminate.
  apply in_app_iff in H. destruct H as [H|H].
  { apply in_map_iff in H. destruct H as [rule [H _]]. discriminate. }
  apply in_map_iff in H. destruct H as [e [Hstmt He]].
  apply in_ranges in He. destruct He as [Hin [Hh _]].
  unfold between_stmt in Hstmt.
  injection Hstmt as _ Hc Hct Hd _ _ Hlo Hhi _ _.
  destruct (range_parts (code_array e) Hh)
    as [lo' [hi' [rest [Hraw [Hlo' [Hhi' [_ [Hl Hg]]]]]]]].
  rewrite Hl in Hlo. rewrite Hg in Hhi. subst lo hi c.
  split; [exists (hi' ++ rest); exact Hraw|]. split; [exact Hlo'|].
  split; [|split].
  - unfold Py.ljust. rewrite has_char_append. intros [H|H]; [contradiction|].
    apply has_char_repeat in H. discriminate.
  - rewrite ljust_length. lia.
  - exists e. auto.
Qed.

Lemma range_statement_bounds_witness :
  let sheet := [mkMapRow "ICD-9" "170-182, 100--105" "Neoplasm"] in
  In (InsertBetween "OUT" "170-182" "9" "Neoplasm" "IN" "dx" "170" "182ZZZZ" "icd_type" "")
     (issued (icd_code_flags_snflk "IN" "dx" "icd_type" "OUT" "" sheet)) /\
  (exists rest, "170-182" = "170" ++ "-" ++ rest) /\
  ~ has_char "-" "170" /\ ~ has_char "-" "182ZZZZ" /\
  7 <= String.length "182ZZZZ".
Proof.
  intros sheet.
  assert (In (InsertBetween "OUT" "170-182" "9" "Neoplasm" "IN" "dx" "170"
                            "182ZZZZ" "icd_type" "")
             (issued (icd_code_flags_snflk "IN" "dx" "icd_type" "OUT" "" sheet)))
    as Hin by (vm_compute; tauto).
  split; [exact Hin|].
  destruct (range_statement_bounds "IN" "dx" "icd_type" "OUT" "" sheet
              "OUT" "170-182" "9" "Neoplasm" "IN" "dx" "170" "182ZZZZ"
              "icd_type" "" Hin) as [H1 [H2 [H3 [H4 _]]]].
  auto.
Defined.

(** ** A blank code cell *)

Lemma replace_delete_all (old : ascii) (s : string) :
  Forall (fun c => c = old) (list_ascii_of_string s) -> Py.replace old "" s = "".
Proof.
  induction s as [|c s IH]; simpl; intros H; [reflexivity|].
  inversion H; subst. rewrite Ascii.eqb_refl. simpl. now apply IH.
Qed.

(** X12. A retained row whose code cell is empty or made of spaces only is
    not skipped: it gives one entry with an empty raw string, and the call
    on that row alone issues one regex rule whose expression is [.*], the
    expression that matches every code. *)
Theorem blank_cell_rule
    (indata indata_code_var indata_code_type_var outdata xwhere : string)
    (r : MapRow) (cur : Cursor) :
  substr "ICD" (Py.upper (map_code_type r)) ->
  Forall (fun c => c = " "%char) (list_ascii_of_string (map_code r)) ->
  let ct := icd_type (map_code_type r) in
  icd_code_flags_snflk indata indata_code_var indata_code_type_var outdata xwhere
                       [r] cur
  = (Ok ([mkEntry ct (map_descr r) "" (map_code r) "" None (Some ".*")],
         [mkRegexRow ct (map_descr r) ".*"]),
     cur ++ [CreateTableLike outdata indata; AlterTableAddMapColumns outdata;
             InsertRegexp outdata ".*" ct (map_descr r) indata
                          indata_code_var indata_code_type_var xwhere])%list.
Proof.
  intros Hicd Hblank ct. apply is_icd_iff in Hicd.
  assert (df_comor_codes [r]
          = [mkEntry ct (map_descr r) "" (map_code r) "" None (Some ".*")]) as Hdf.
  { rewrite df_comor_codes_one. unfold row_entries, segments, entry_of.
    rewrite Hicd, (replace_delete_all " " (map_code r) Hblank). reflexivity. }
  rewrite icd_code_flags_snflk_ok, Hdf.
  unfold patterns, ranges, group_keys, regex_row, group_of, patterns. simpl.
  unfold key_eqb, key_of. simpl. rewrite !String.eqb_refl. reflexivity.
Qed.

Lemma blank_cell_rule_witness :
  let r := mkMapRow "ICD10" "  " "Unspecified" in
  substr "ICD" (Py.upper (map_code_type r)) /\
  Forall (fun c => c = " "%char) (list_ascii_of_string (map_code r)) /\
  icd_code_flags_snflk "IN" "dx" "icd_type" "OUT" "" [r] []
  = (Ok ([mkEntry "10" "Unspecified" "" "  " "" None (Some ".*")],
         [mkRegexRow "10" "Unspecified" ".*"]),
     [CreateTableLike "OUT" "IN"; AlterTableAddMapColumns "OUT";
      InsertRegexp "OUT" ".*" "10" "Unspecified" "IN" "dx" "icd_type" ""]).
Proof.
  intros r.
  assert (substr "ICD" (Py.upper (map_code_type r))) as Hicd
    by (apply contains_iff; reflexivity).
  assert (Forall (fun c => c = " "%char) (list_ascii_of_string (map_code r))) as Hb
    by (repeat constructor).
  split; [exact Hicd|]. split; [exact Hb|].
  exact (blank_cell_rule "IN" "dx" "icd_type" "OUT" "" r [] Hicd Hb).
Defined.

(** ** Reordering the sheet *)

(** X13. Reordering the rows of the sheet only reorders the result: the
    exploded frame, the entries that reach the grouping and the range
    statements of the reordered sheet are rearrangements of those of the
    sheet, so the call issues as many range statements as before. *)
Theorem reordered_sheet
    (indata indata_code_var indata_code_type_var outdata xwhere : string)
    (sheet sheet' : list MapRow) :
  Permutation sheet sheet' ->
  Permutation (df_comor_codes sheet) (df_comor_codes sheet') /\
  Permutation (patterns (df_comor_codes sheet)) (patterns (df_comor_codes sheet')) /\
  Permutation
    (map (between_stmt indata indata_code_var indata_code_type_var outdata xwhere)
         (ranges (df_comor_codes sheet)))
    (map (between_stmt indata indata_code_var indata_code_type_var outdata xwhere)
         (ranges (df_comor_codes sheet'))).
Proof.
  intros Hp.
  assert (Permutation (df_comor_codes sheet) (df_comor_codes sheet')) as Hdf.
  { rewrite !df_comor_codes_flat_map. now apply Permutation_flat_map. }
  split; [exact Hdf|]. split.
  - unfold patterns. now apply perm_filter.
  - apply Permutation_map. unfold ranges. now apply perm_filter.
Qed.

Lemma reordered_sheet_witness :
  let r1 := mkMapRow "ICD-9" "170-182" "Neoplasm" in
  let r2 := mkMapRow "ICD10" "I10, I11-I13" "Hypertension" in
  Permutation [r1; r2] [r2; r1] /\
  Permutation (df_comor_codes [r1; r2]) (df_comor_codes [r2; r1]).
Proof.
  intros r1 r2.
  assert (Permutation [r1; r2] [r2; r1]) as Hp by apply perm_swap.
  split; [exact Hp|].
  exact (proj1 (reordered_sheet "IN" "dx" "icd_type" "OUT" "" [r1; r2] [r2; r1] Hp)).
Defined.

(** ** Rules of stacked sheets *)

Lemma concat_app_parts (sep : string) (l1 l2 : list string) :
  l1 <> [] -> l2 <> [] ->
  String.concat sep (l1 ++ l2) = String.concat sep l1 ++ sep ++ String.concat sep l2.
Proof.
  intros H1 H2. induction l1 as [|a l1 IH]; [congruence|].
  destruct l1 as [|b l1].
  - simpl. destruct l2; [congruence | reflexivity].
  - change (String.concat sep ((a :: b :: l1) ++ l2))
      with (a ++ sep ++ String.concat sep ((b :: l1) ++ l2)).
    rewrite IH by discriminate.
    change (String.concat sep (a :: b :: l1))
      with (a ++ sep ++ String.concat sep (b :: l1)).
    now rewrite !append_assoc.
Qed.

Lemma group_of_app (s1 s2 : list MapRow) (k : key) :
  group_of (df_comor_codes (s1 ++ s2)) k
  = (group_of (df_comor_codes s1) k ++ group_of (df_comor_codes s2) k)%list.
Proof.
  unfold group_of, patterns. now rewrite df_comor_codes_app, !filter_app.
Qed.

(** A row of the grouped frame, read back as its key and its members. *)
Lemma in_regex_rows (sheet : list MapRow) (rules : list RegexRow)
      (ct d expr : string) :
  df_regex_codes (df_comor_codes sheet) = Ok rules ->
  (In (mkRegexRow ct d expr) rules <->
   group_of (df_comor_codes sheet) (ct, d) <> [] /\
   expr = Py.join "|" (map regex_text (group_of (df_comor_codes sheet) (ct, d)))).
Proof.
  rewrite df_regex_codes_ok. intros [= <-]. rewrite in_map_iff. split.
  - intros [[a b] [Hrow Hk]]. unfold regex_row in Hrow. simpl in Hrow.
    injection Hrow as -> -> <-.
    split; [|reflexivity]. now apply group_members.
  - intros [Hne ->]. exists (ct, d). split; [reflexivity|].
    apply in_group_keys.
    destruct (group_of (df_comor_codes sheet) (ct, d)) as [|e g] eqn:Hg; [congruence|].
    assert (In e (group_of (df_comor_codes sheet) (ct, d))) as He
      by (rewrite Hg; now left).
    unfold group_of in He. apply filter_In in He. destruct He as [He Hk].
    exists e. split; [exact He | now apply key_eqb_eq].
Qed.

(** X14. When two sheets both have a rule for a key, the stacked sheet has
    one rule for it, whose expression is the expression of the first sheet,
    a ['|'], and the expression of the second. *)
Theorem stacked_rule_expression (s1 s2 : list MapRow) (rules1 rules2 : list RegexRow)
        (ct d expr1 expr2 : string) :
  df_regex_codes (df_comor_codes s1) = Ok rules1 ->
  df_regex_codes (df_comor_codes s2) = Ok rules2 ->
  In (mkRegexRow ct d expr1) rules1 ->
  In (mkRegexRow ct d expr2) rules2 ->
  exists rules,
    df_regex_codes (df_comor_codes (s1 ++ s2)) = Ok rules /\
    In (mkRegexRow ct d (expr1 ++ "|" ++ expr2)) rules /\
    forall expr, In (mkRegexRow ct d expr) rules -> expr = expr1 ++ "|" ++ expr2.
Proof.
  intros H1 H2 Hin1 Hin2.
  apply (in_regex_rows s1 rules1 ct d expr1 H1) in Hin1.
  apply (in_regex_rows s2 rules2 ct d expr2 H2) in Hin2.
  destruct Hin1 as [Hne1 ->], Hin2 as [Hne2 ->].
  eexists. split; [apply df_regex_codes_ok|].
  assert (Py.join "|" (map regex_text (group_of (df_comor_codes (s1 ++ s2)) (ct, d)))
          = Py.join "|" (map regex_text (group_of (df_comor_codes s1) (ct, d)))
            ++ "|" ++ Py.join "|" (map regex_text (group_of (df_comor_codes s2) (ct, d))))
    as Hjoin.
  { rewrite group_of_app, map_app. unfold Py.join. apply concat_app_parts.
    - destruct (group_of (df_comor_codes s1) (ct, d)); [congruence | discriminate].
    - destruct (group_of (df_comor_codes s2) (ct, d)); [congruence | discriminate]. }
  assert (group_of (df_comor_codes (s1 ++ s2)) (ct, d) <> []) as Hne.
  { rewrite group_of_app. destruct (group_of (df_comor_codes s1) (ct, d));
      [congruence | discriminate]. }
  split.
  - apply (in_regex_rows (s1 ++ s2) _ ct d _ (df_regex_codes_ok _)).
    split; [exact Hne | now rewrite Hjoin].
  - intros expr Hexpr.
    apply (in_regex_rows (s1 ++ s2) _ ct d _ (df_regex_codes_ok _)) in Hexpr.
    destruct Hexpr as [_ ->]. exact Hjoin.
Qed.

Lemma stacked_rule_expression_witness :
  let s1 := [mkMapRow "ICD10" "I10" "Hypertension"] in
  let s2 := [mkMapRow "ICD-10-CM" "I11x, I12" "Hypertension"] in
  df_regex_codes (df_comor_codes s1) = Ok [mkRegexRow "10" "Hypertension" "I10.*"] /\
  df_regex_codes (df_comor_codes s2)
  = Ok [mkRegexRow "10" "Hypertension" "I11..*|I12.*"] /\
  exists rules,
    df_regex_codes (df_comor_codes (s1 ++ s2)) = Ok rules /\
    In (mkRegexRow "10" "Hypertension" ("I10.*" ++ "|" ++ "I11..*|I12.*")) rules.
Proof.
  intros s1 s2.
  assert (df_regex_codes (df_comor_codes s1)
          = Ok [mkRegexRow "10" "Hypertension" "I10.*"]) as H1 by reflexivity.
  assert (df_regex_codes (df_comor_codes s2)
          = Ok [mkRegexRow "10" "Hypertension" "I11..*|I12.*"]) as H2 by reflexivity.
  split; [exact H1|]. split; [exact H2|].
  destruct (stacked_rule_expression s1 s2 _ _ "10" "Hypertension" "I10.*"
              "I11..*|I12.*" H1 H2 (or_introl eq_refl) (or_introl eq_refl))
    as [rules [Hr [Hin _]]].
  exists rules. auto.
Defined.

(** X15. A rule of a sheet whose key has no rule in a second sheet is a rule
    of the stacked sheet, unchanged, whichever of the two comes first. *)
Theorem stacked_rule_kept (s1 s2 : list MapRow) (rules1 rules2 : list RegexRow)
        (ct d expr : string) :
  df_regex_codes (df_comor_codes s1) = Ok rules1 ->
  df_regex_codes (df_comor_codes s2) = Ok rules2 ->
  In (mkRegexRow ct d expr) rules1 ->
  ~ In (ct, d) (map rx_key rules2) ->
  exists rules12 rules21,
    df_regex_codes (df_comor_codes (s1 ++ s2)) = Ok rules12 /\
    df_regex_codes (df_comor_codes (s2 ++ s1)) = Ok rules21 /\
    In (mkRegexRow ct d expr) rules12 /\
    In (mkRegexRow ct d expr) rules21.
Proof.
  intros H1 H2 Hin1 Hnot.
  apply (in_regex_rows s1 rules1 ct d expr H1) in Hin1. destruct Hin1 as [Hne1 ->].
  assert (group_of (df_comor_codes s2) (ct, d) = []) as Hnil.
  { destruct (group_of (df_comor_codes s2) (ct, d)) as [|e g] eqn:Hg; [reflexivity|].
    exfalso. apply Hnot. rewrite df_regex_codes_ok in H2. injection H2 as <-.
    rewrite regex_rows_keys. apply in_group_keys.
    assert (In e (group_of (df_comor_codes s2) (ct, d))) as He
      by (rewrite Hg; now left).
    unfold group_of in He. apply filter_In in He. destruct He as [He Hk].
    exists e. split; [exact He | now apply key_eqb_eq]. }
  eexists. eexists.
  split; [apply df_regex_codes_ok|]. split; [apply df_regex_codes_ok|]. split.
  - apply (in_regex_rows (s1 ++ s2) _ ct d _ (df_regex_codes_ok _)).
    rewrite group_of_app, Hnil, app_nil_r. now split.
  - apply (in_regex_rows (s2 ++ s1) _ ct d _ (df_regex_codes_ok _)).
    rewrite group_of_app, Hnil. now split.
Qed.

Lemma stacked_rule_kept_witness :
  let s1 := [mkMapRow "ICD10" "I10" "Hypertension"] in
  let s2 := [mkMapRow "ICD-9" "250.x" "Diabetes"] in
  In (mkRegexRow "10" "Hypertension" "I10.*") [mkRegexRow "10" "Hypertension" "I10.*"] /\
  ~ In ("10", "Hypertension") (map rx_key [mkRegexRow "9" "Diabetes" "250...*"]) /\
  exists rules12 rules21,
    df_regex_codes (df_comor_codes (s1 ++ s2)) = Ok rules12 /\
    df_regex_codes (df_comor_codes (s2 ++ s1)) = Ok rules21 /\
    In (mkRegexRow "10" "Hypertension" "I10.*") rules12 /\
    In (mkRegexRow "10" "Hypertension" "I10.*") rules21.
Proof.
  intros s1 s2.
  assert (~ In ("10", "Hypertension") (map rx_key [mkRegexRow "9" "Diabetes" "250...*"]))
    as Hnot by (simpl; intros [H|[]]; discriminate).
  split; [now left|]. split; [exact Hnot|].
  exact (stacked_rule_kept s1 s2 _ _ "10" "Hypertension" "I10.*"
           (eq_refl : df_regex_codes (df_comor_codes s1)
                      = Ok [mkRegexRow "10" "Hypertension" "I10.*"])
           (eq_refl : df_regex_codes (df_comor_codes s2)
                      = Ok [mkRegexRow "9" "Diabetes" "250...*"])
           (or_introl eq_refl) Hnot).
Defined.

(** ** Reading an expression back *)

Lemma split_join (sep : ascii) (parts : list string) :
  parts <> [] -> Forall (fun part => ~ has_char sep part) parts ->
  Py.split sep (Py.join (String sep "") parts) = parts.
Proof.
  unfold Py.join. induction parts as [|p ps IH]; [congruence|]. intros _ Hall.
  inversion Hall as [|? ? Hp Hps]; subst.
  destruct ps as [|q ps].
  - simpl. now apply split_free.
  - change (String.concat (String sep "") (p :: q :: ps))
      with (p ++ String sep (String.concat (String sep "") (q :: ps))).
    rewrite (split_app sep p _ Hp), IH; [reflexivity | discriminate | exact Hps].
Qed.

(** X16. When no raw string of the frame holds a ['|'], splitting the
    expression of a rule on ['|'] gives back the expressions of its members,
    one per entry with the key of the rule, in row order: the grouping loses
    nothing. *)
Theorem rule_members_recovered (sheet : list MapRow) (rules : list RegexRow)
        (ct d expr : string) :
  df_regex_codes (df_comor_codes sheet) = Ok rules ->
  In (mkRegexRow ct d expr) rules ->
  (forall e, In e (df_comor_codes sheet) -> ~ has_char "|" (code_array e)) ->
  Py.split "|" expr
  = map (fun e => Py.replace "x" "." (code_array e) ++ ".*")
        (filter (fun e => key_eqb (key_of e) (ct, d))
                (patterns (df_comor_codes sheet))).
Proof.
  intros Hrules Hin Hbar.
  apply (in_regex_rows sheet rules ct d expr Hrules) in Hin.
  destruct Hin as [Hne ->]. fold (group_of (df_comor_codes sheet) (ct, d)).
  assert (forall e, In e (group_of (df_comor_codes sheet) (ct, d)) ->
            In e (df_comor_codes sheet) /\
            regex_text e = Py.replace "x" "." (code_array e) ++ ".*") as Hmem.
  { intros e He. unfold group_of in He. apply filter_In in He.
    destruct He as [He _]. apply in_patterns in He.
    destruct He as [Hdf [_ Hre]]. split; [exact Hdf|].
    unfold regex_text. now rewrite Hre. }
  rewrite split_join.
  - apply map_ext_in. intros e He. now apply Hmem.
  - destruct (group_of (df_comor_codes sheet) (ct, d)); [congruence | discriminate].
  - apply Forall_forall. intros part Hpart. apply in_map_iff in Hpart.
    destruct Hpart as [e [<- He]]. destruct (Hmem e He) as [Hdf ->].
    rewrite has_char_append. intros [H|H].
    + apply replace_char_has in H. destruct H as [H|H]; [discriminate|].
      exact (Hbar e Hdf H).
    + destruct H as [H|[H|[]]]; discriminate.
Qed.

Lemma rule_members_recovered_witness :
  let sheet := [mkMapRow "ICD10" "I10, I11x" "Hypertension";
                mkMapRow "ICD10" "E11" "Diabetes";
                mkMapRow "ICD10" "I12" "Hypertension"] in
  In (mkRegexRow "10" "Hypertension" "I10.*|I11..*|I12.*")
     [mkRegexRow "10" "Diabetes" "E11.*";
      mkRegexRow "10" "Hypertension" "I10.*|I11..*|I12.*"] /\
  (forall e, In e (df_comor_codes sheet) -> ~ has_char "|" (code_array e)) /\
  Py.split "|" "I10.*|I11..*|I12.*"
  = map (fun e => Py.replace "x" "." (code_array e) ++ ".*")
        (filter (fun e => key_eqb (key_of e) ("10", "Hypertension"))
                (patterns (df_comor_codes sheet))).
Proof.
  intros sheet.
  assert (forall e, In e (df_comor_codes sheet) -> ~ has_char "|" (code_array e))
    as Hbar.
  { intros e He. vm_compute in He.
    repeat (destruct He as [<-|He]; [apply contains_char_false; reflexivity|]).
    destruct He. }
  split; [right; now left|]. split; [exact Hbar|].
  exact (rule_members_recovered sheet _ "10" "Hypertension" "I10.*|I11..*|I12.*"
           (eq_refl : df_regex_codes (df_comor_codes sheet)
                      = Ok [mkRegexRow "10" "Diabetes" "E11.*";
                            mkRegexRow "10" "Hypertension" "I10.*|I11..*|I12.*"])
           (or_intror (or_introl eq_refl)) Hbar).
Defined.

(** A raw string with a ['|'] is not guarded: it reads as two alternatives. *)
Example bar_in_code_splits_rule :
  df_regex_codes (df_comor_codes [mkMapRow "ICD10" "I10|I11" "Hypertension"])
  = Ok [mkRegexRow "10" "Hypertension" "I10|I11.*"] /\
  Py.split "|" "I10|I11.*" = ["I10"; "I11.*"].
Proof. split; reflexivity. Qed.
